(** * wal-g: MongoDB archive loader and file-restore dispatcher

    A shallow embedding of

    - [internal/databases/mongo/archive/loader.go] (package [archive]): the
      store-backed and discard [Uploader]s, the [StorageDownloader] and the
      [StoragePurger];
    - the [DefaultFileUnwrapper] of package [internal].

    Go functions returning [(T, error)] become functions returning
    [T * option error], where [None] is Go's [nil] error.  Code that calls
    out to the object store or to another collaborator runs in a small state
    monad whose state carries the collaborators' world and the list of calls
    made so far. *)

From Stdlib Require Import ZArith NArith Lia.
From stdpp Require Import base option strings pretty list gmap sorting.

Local Open Scope string_scope.
Local Open Scope list_scope.

(** ** Go values used by both packages *)

Module Go.

(** Go's [error] interface: a message, and for errors built with the
    [%w] verb (or [errors.Wrapf]) the error that is wrapped. *)
Inductive error : Type :=
| ErrNew (msg : string)
| ErrWrap (msg : string) (cause : error).

(** [err.Error()] *)
Definition Error (e : error) : string :=
  match e with
  | ErrNew msg => msg
  | ErrWrap msg _ => msg
  end.

(** [errors.Unwrap(err)] *)
Definition Unwrap (e : error) : option error :=
  match e with
  | ErrNew _ => None
  | ErrWrap _ cause => Some cause
  end.

(** [fmt.Errorf(msg)] with no verb. *)
Definition Errorf (msg : string) : error := ErrNew msg.

(** [fmt.Errorf(pre + "%w" + post, err)]: the text before and after the
    [%w] verb is given already formatted. *)
Definition Errorf_w (pre : string) (err : error) (post : string) : error :=
  ErrWrap (pre +:+ Error err +:+ post) err.

(** [errors.Wrapf(err, msg)] of github.com/pkg/errors: [nil] stays [nil]. *)
Definition Wrapf (err : option error) (msg : string) : option error :=
  match err with
  | None => None
  | Some e => Some (ErrWrap (msg +:+ ": " +:+ Error e) e)
  end.

(** A Go slice as a function result: the [nil] slice is kept apart from an
    allocated slice of length zero. *)
Inductive slice (A : Type) : Type :=
| nil_slice
| Slice (elems : list A).
Arguments nil_slice {A}.
Arguments Slice {A} elems.

Definition elems_of {A} (s : slice A) : list A :=
  match s with
  | nil_slice => []
  | Slice l => l
  end.

Definition len {A} (s : slice A) : nat := length (elems_of s).

(** An [io.Reader], by what reading it to the end yields: the bytes
    delivered and the error, if any, that ended the reading ([io.EOF] is
    not an error here, as for [ReadFrom]). *)
Record Reader : Type := mkReader {
  rdata : list Byte.byte;
  rerr : option error
}.

(** [strings.NewReader(s)] *)
Definition strings_NewReader (s : string) : Reader :=
  {| rdata := String.list_byte_of_string s; rerr := None |}.

(** [bytes.NewReader(b)] *)
Definition bytes_NewReader (b : list Byte.byte) : Reader :=
  {| rdata := b; rerr := None |}.

(** [time.Time], as an instant on a line. *)
Definition Time : Type := Z.

(** [t.After(u)] *)
Definition After (t u : Time) : bool := (u <? t)%Z.

(** The outcome of running a Go function: it returns, or it panics. *)
Inductive outcome (A : Type) : Type :=
| Returns (a : A)
| Panics (msg : string).
Arguments Returns {A} a.
Arguments Panics {A} msg.

(** [strings.HasSuffix(s, suffix)]:
    [len(s) >= len(suffix) && s[len(s)-len(suffix):] == suffix]. *)
Definition strings_HasSuffix (s suffix : string) : bool :=
  (String.length suffix <=? String.length s)%nat
  && String.eqb
       (String.substring (String.length s - String.length suffix)
          (String.length suffix) s)
       suffix.

End Go.
Export Go.

(** ** A state monad for code that calls collaborators *)

Section StateMonad.
Context {S : Type}.

Definition M (A : Type) : Type := S -> A * S.

Definition ret {A} (a : A) : M A := fun s => (a, s).

Definition bind {A B} (m : M A) (k : A -> M B) : M B :=
  fun s => let (a, s') := m s in k a s'.

End StateMonad.
Arguments M S A : clear implicits.

Declare Scope go_scope.
Delimit Scope go_scope with go.
Notation "'call' x <- m ; k" := (bind m (fun x => k))
  (at level 10, x name, m at level 100, k at level 200,
   format "'[v' 'call'  x  <-  m ; '/' k ']'") : go_scope.
Notation "'call' ' pat <- m ; k" :=
  (bind m (fun x => match x with pat => k end))
  (at level 10, pat pattern, m at level 100, k at level 200) : go_scope.

(** ** Package [models]: timestamps and archives *)

Module Models.

(** Modelled from the spec: [models.Timestamp] is not under src.  The spec
    (section 3) gives it as wall-clock seconds plus an in-second sequence
    counter, totally ordered; both are unsigned, so the zero value is the
    least timestamp. *)
Record Timestamp : Type := mkTS {
  TS : N;
  Inc : N
}.

Definition zeroTS : Timestamp := {| TS := 0; Inc := 0 |}.

(** Modelled from the spec: the order of timestamps, seconds first and
    then the counter. *)
Definition LessTS (a b : Timestamp) : bool :=
  if negb (TS a =? TS b)%N then (TS a <? TS b)%N else (Inc a <? Inc b)%N.

(** Modelled from the spec: [models.MaxTS] is not under src; it "returns
    the later of two timestamps". *)
Definition MaxTS (a b : Timestamp) : Timestamp :=
  if LessTS a b then b else a.

Definition LeTS (a b : Timestamp) : Prop := LessTS b a = false.

(** Modelled from the spec: the two kinds of archive, [Type ∈ {Oplog, Gap}]. *)
Inductive ArchiveType : Type :=
| ArchiveTypeOplog
| ArchiveTypeGap.

(** Modelled from the spec: [models.Archive] is not under src; it covers
    [[Start, End)] and carries the file extension and the type. *)
Record Archive : Type := mkArchive {
  Start : Timestamp;
  End : Timestamp;
  Ext : string;
  Type_ : ArchiveType
}.

Definition zeroArchive : Archive :=
  {| Start := zeroTS; End := zeroTS; Ext := ""; Type_ := ArchiveTypeOplog |}.

(** The functions of package [models] that loader.go calls and that are
    not under src: how an archive is built, named and decoded. *)
Record Codec : Type := mkCodec {
  NewArchive : Timestamp -> Timestamp -> string -> ArchiveType ->
               Archive * option error;
  Filename : Archive -> string;
  ArchFromFilename : string -> Archive * option error
}.

End Models.
Export Models.

(** ** Package [archive]: loader.go *)

Module Archive.

(** *** Collaborators of the Downloader *)

(** A [storage.Object] of a listing. *)
Record Object : Type := mkObject {
  GetName : string;
  GetLastModified : Time
}.

(** A [storage.Folder] as the Downloader reads it: what [ListFolder]
    returns (objects, sub-folders, error).  The Downloader never writes. *)
Record Folder : Type := mkFolder {
  ListFolder : list Object * list string * option error
}.

(** Modelled from the spec: the sentinel [Backup] of package [archive] is
    declared outside loader.go; its fields are those of the spec's
    sentinel document (section 6).  The user data and the database
    metadata are opaque here and kept in serialized form. *)
Record Backup : Type := mkBackup {
  BackupName : string;
  StartLocalTime : Time;
  FinishLocalTime : Time;
  UserData : string;
  MongoMeta : string
}.

(** [Backup{}] *)
Definition zeroBackup : Backup :=
  {| BackupName := ""; StartLocalTime := 0%Z; FinishLocalTime := 0%Z;
     UserData := ""; MongoMeta := "" |}.

Definition set_BackupName (b : Backup) (name : string) : Backup :=
  {| BackupName := name; StartLocalTime := StartLocalTime b;
     FinishLocalTime := FinishLocalTime b; UserData := UserData b;
     MongoMeta := MongoMeta b |}.

(** [internal.Backup], the handle made by [internal.NewBackup] from a
    folder and a name. *)
Record BackupHandle (F : Type) : Type := NewBackup {
  BaseBackupFolder : F;
  Name : string
}.
Arguments NewBackup {F} _ _.
Arguments BaseBackupFolder {F} _.
Arguments Name {F} _.

(** [sort.Slice(x, less)] of Go's library, with [less] taking the two
    elements instead of their indices. *)
Definition sorter : Type :=
  forall A : Type, (A -> A -> bool) -> list A -> list A.

(** The ordering [sort.Slice] asks of [less]. *)
Record strict_weak_order {A} (less : A -> A -> bool) : Prop := {
  swo_irrefl : forall a, less a a = false;
  swo_trans : forall a b c, less a b = true -> less b c = true ->
                            less a c = true;
  swo_incomp : forall a b c, less a b = false -> less b c = false ->
                             less a c = false
}.

(** What [sort.Slice] promises: the same elements, and none placed before
    an element that is less than it.  It is not promised to be stable. *)
Record sorter_ok (sort_Slice : sorter) : Prop := {
  sort_perm : forall A (less : A -> A -> bool) l, sort_Slice A less l ≡ₚ l;
  sort_sorted : forall A (less : A -> A -> bool) l,
    strict_weak_order less ->
    StronglySorted (fun a b => less b a = false) (sort_Slice A less l)
}.

(** [internal.BackupTime], with the three fields [ListBackupNames] fills. *)
Record BackupTime : Type := mkBackupTime {
  BT_BackupName : string;
  BT_Time : Time;
  BT_WalFileName : string
}.

(** What [ListBackupNames] takes from package [utility], which is not
    under src: the suffix of a sentinel key and the two functions that cut
    a key down to the backup name and to the log-file name. *)
Record Utility : Type := mkUtility {
  SentinelSuffix : string;
  StripBackupName : string -> string;
  StripWalFileName : string -> string
}.

(** *** StorageDownloader *)

Record StorageDownloader : Type := mkStorageDownloader {
  oplogsFolder : Folder;
  backupsFolder : Folder
}.

Section Downloader.
(** [internal.FetchStreamSentinel(backup, &sentinel)]: the sentinel as
    filled in, and the error. *)
Variable FetchStreamSentinel :
  BackupHandle Folder -> Backup -> Backup * option error.
Variable sort_Slice : sorter.
Variable codec : Codec.

Definition BackupMeta (sd : StorageDownloader) (name : string)
  : Backup * option error :=
  let backup := NewBackup (backupsFolder sd) name in
  let sentinel := zeroBackup in
  let '(sentinel, err) := FetchStreamSentinel backup sentinel in
  match err with
  | Some err => (zeroBackup, Some (Errorf_w "can not fetch stream sentinel: " err ""))
  | None =>
      let sentinel :=
        if String.eqb (BackupName sentinel) ""
        then set_BackupName sentinel name else sentinel in
      (sentinel, None)
  end.

(** The [for _, name := range names] loop of [LoadBackups], with the
    slice [backups] built so far. *)
Fixpoint LoadBackups_loop (sd : StorageDownloader) (names : list string)
  (backups : list Backup) : list Backup * option error :=
  match names with
  | [] => (backups, None)
  | name :: names' =>
      let '(backup, err) := BackupMeta sd name in
      match err with
      | Some err => ([], Some err)
      | None => LoadBackups_loop sd names' (backups ++ [backup])
      end
  end.

Definition LoadBackups (sd : StorageDownloader) (names : list string)
  : slice Backup * option error :=
  match LoadBackups_loop sd names [] with
  | (_, Some err) => (nil_slice, Some err)
  | (backups, None) =>
      let backups :=
        sort_Slice Backup
          (fun bi bj => After (FinishLocalTime bi) (FinishLocalTime bj))
          backups in
      (Slice backups, None)
  end.

(** The loop of [ListOplogArchives] over the listed objects. *)
Fixpoint ListOplogArchives_loop (objects : list Object)
  (archives : list Archive) : slice Archive * option error :=
  match objects with
  | [] => (Slice archives, None)
  | key :: objects' =>
      let archName := GetName key in
      let '(arch, err) := ArchFromFilename codec archName in
      match err with
      | Some err =>
          (nil_slice,
           Some (Errorf_w
             ("can not convert retrieve timestamps since oplog archive Ext '"
                +:+ archName +:+ "': ") err ""))
      | None => ListOplogArchives_loop objects' (archives ++ [arch])
      end
  end.

Definition ListOplogArchives (sd : StorageDownloader)
  : slice Archive * option error :=
  let '(objects, _, err) := ListFolder (oplogsFolder sd) in
  match err with
  | Some err =>
      (nil_slice, Some (Errorf_w "can not list oplog archives folder: " err ""))
  | None => ListOplogArchives_loop objects []
  end.

(** The loop of [LastKnownArchiveTS], with the running [maxTS]. *)
Fixpoint LastKnownArchiveTS_loop (keys : list Object) (maxTS : Timestamp)
  : Timestamp * option error :=
  match keys with
  | [] => (maxTS, None)
  | key :: keys' =>
      let filename := GetName key in
      let '(arch, err) := ArchFromFilename codec filename in
      match err with
      | Some err =>
          (zeroTS,
           Some (Errorf_w
             ("can not build archive since filename '" +:+ filename +:+ "': ")
             err ""))
      | None => LastKnownArchiveTS_loop keys' (MaxTS maxTS (End arch))
      end
  end.

Definition LastKnownArchiveTS (sd : StorageDownloader)
  : Timestamp * option error :=
  let maxTS := zeroTS in
  let '(keys, _, err) := ListFolder (oplogsFolder sd) in
  match err with
  | Some err =>
      (zeroTS, Some (Errorf_w "can not fetch keys since storage folder: " err " "))
  | None => LastKnownArchiveTS_loop keys maxTS
  end.

(** A listed object whose name decodes, and the archive it decodes to. *)
Definition decodes (o : Object) : Prop :=
  (ArchFromFilename codec (GetName o)).2 = None.

Definition decoded (o : Object) : Archive :=
  (ArchFromFilename codec (GetName o)).1.

(** The largest [End] among the archives of a listing; the zero
    timestamp when there is none. *)
Definition is_max_End (objects : list Object) (m : Timestamp) : Prop :=
  Forall (fun o => LeTS (End (decoded o)) m) objects /\
  (objects = [] -> m = zeroTS) /\
  (objects <> [] -> Exists (fun o => m = End (decoded o)) objects).

(** A backup name whose sentinel can be fetched, and the sentinel. *)
Definition resolves (sd : StorageDownloader) (name : string) : Prop :=
  (BackupMeta sd name).2 = None.

Definition resolved (sd : StorageDownloader) (name : string) : Backup :=
  (BackupMeta sd name).1.

Variable utility : Utility.

(** The entry [ListBackupNames] appends for a listed object. *)
Definition backup_time_of (object : Object) : BackupTime :=
  let key := GetName object in
  let mtime := GetLastModified object in
  {| BT_BackupName := StripBackupName utility key;
     BT_Time := mtime;
     BT_WalFileName := StripWalFileName utility key |}.

(** The loop of [ListBackupNames], with the slice [sortTimes] built so far. *)
Fixpoint ListBackupNames_loop (backupObjects : list Object)
  (sortTimes : list BackupTime) : list BackupTime :=
  match backupObjects with
  | [] => sortTimes
  | object :: backupObjects' =>
      let key := GetName object in
      if negb (strings_HasSuffix key (SentinelSuffix utility))
      then ListBackupNames_loop backupObjects' sortTimes
      else ListBackupNames_loop backupObjects' (sortTimes ++ [backup_time_of object])
  end.

Definition ListBackupNames (sd : StorageDownloader)
  : slice BackupTime * option error :=
  let '(backupObjects, _, err) := ListFolder (backupsFolder sd) in
  match err with
  | Some err => (nil_slice, Some err)
  | None =>
      let sortTimes := ListBackupNames_loop backupObjects [] in
      let sortTimes :=
        sort_Slice BackupTime (fun ti tj => After (BT_Time ti) (BT_Time tj))
          sortTimes in
      (Slice sortTimes, None)
  end.

(** A listed object whose key ends in the sentinel suffix. *)
Definition is_sentinel_key (object : Object) : bool :=
  strings_HasSuffix (GetName object) (SentinelSuffix utility).

End Downloader.

(** *** Uploaders *)

(** The calls an Uploader makes to its collaborators. *)
Inductive UEvent : Type :=
| EvTimeNow
| EvPushStream (stream : Reader)
| EvPushStreamToDestination (stream : Reader) (dstPath : string)
| EvUpload (path : string) (content : Reader)
| EvFinalize
| EvWait
| EvGetSentinelUserData
| EvMeta
| EvUploadSentinel (sentinel : Backup) (backupName : string)
| EvReadFrom (r : Reader).

(** The state an upload runs in: the collaborators' world, the calls made
    so far, and the content of the [bytes.Buffer] that [su.buf] points to. *)
Record UState (World : Type) : Type := mkUState {
  world : World;
  trace : list UEvent;
  buf : list Byte.byte
}.
Arguments mkUState {World} _ _ _.
Arguments world {World} _.
Arguments trace {World} _.
Arguments buf {World} _.

Section Uploader.
Context {World Compressor Crypter : Type}.

(** [ErrWaiter] *)
Record ErrWaiter : Type := mkErrWaiter {
  Wait : World -> option error * World
}.

(** [MongoMetaProvider], declared outside loader.go; the spec gives
    [Finalize() error] and [Meta()]. *)
Record MongoMetaProvider : Type := mkMongoMetaProvider {
  Finalize : World -> option error * World;
  Meta : World -> string * World
}.

(** [internal.UploaderProvider], as far as loader.go calls it. *)
Record UploaderProvider : Type := mkUploaderProvider {
  Compression : Compressor;
  PushStream : Reader -> World -> string * option error * World;
  PushStreamToDestination : Reader -> string -> World -> option error * World;
  Upload : string -> Reader -> World -> option error * World;
  DisableSizeTracking : World -> World
}.

(** An [io.ReaderFrom]. *)
Record ReaderFrom : Type := mkReaderFrom {
  ReadFrom : Reader -> World -> Z * option error * World
}.

(** The functions of packages [internal], [utility] and [compression]
    that the Uploaders call and that are not under src. *)
Record Internals : Type := mkInternals {
  FileExtension : Compressor -> string;
  ConfigureCrypter : Crypter;
  CompressAndEncrypt : Reader -> Compressor -> Crypter -> Reader;
  TimeNowCrossPlatformLocal : World -> Time * World;
  GetSentinelUserData : World -> string * World;
  UploadSentinel : UploaderProvider -> Backup -> string ->
                   World -> option error * World
}.

Variable codec : Codec.
Variable internal : Internals.

Local Abbreviation St := (UState World).

(** A call to a collaborator: it is recorded, and it runs on the world. *)
Definition invoke {A} (ev : UEvent) (f : World -> A * World) : M St A :=
  fun s =>
    let (a, w) := f (world s) in
    (a, {| world := w; trace := trace s ++ [ev]; buf := buf s |}).

(** [b.ReadFrom(r)] of [bytes.Buffer]: appends what [r] delivers. *)
Definition buf_ReadFrom (r : Reader) : M St (Z * option error) :=
  fun s =>
    ((Z.of_nat (length (rdata r)), rerr r),
     {| world := world s; trace := trace s; buf := buf s ++ rdata r |}).

(** [b.Bytes()] *)
Definition buf_Bytes : M St (list Byte.byte) := fun s => (buf s, s).

(** [b.Reset()] *)
Definition buf_Reset : M St unit :=
  fun s => (tt, {| world := world s; trace := trace s; buf := [] |}).

(** **** DiscardUploader *)

Record DiscardUploader : Type := NewDiscardUploader {
  compressor : option Compressor;
  readerFrom : option ReaderFrom
}.

Definition Discard_UploadOplogArchive (d : DiscardUploader)
  (archReader : Reader) (firstTS lastTS : Timestamp) : M St (option error) :=
  let archReader :=
    match compressor d with
    | Some c => CompressAndEncrypt internal archReader c (ConfigureCrypter internal)
    | None => archReader
    end in
  match readerFrom d with
  | Some rf =>
      call '(_, err) <- invoke (EvReadFrom archReader) (ReadFrom rf archReader);
      match err with
      | Some err => ret (Some err)
      | None => ret None
      end
  | None => ret None
  end%go.

Definition Discard_UploadGapArchive (d : DiscardUploader)
  (err : option error) (firstTS lastTS : Timestamp) : M St (option error) :=
  ret None.

Definition Discard_UploadBackup (d : DiscardUploader) (stream : Reader)
  (cmd : ErrWaiter) (metaProvider : MongoMetaProvider)
  : M St (outcome (option error)) :=
  ret (Panics "implement me").

(** **** StorageUploader *)

(** The buffer [buf] points into the state ([buf] of [UState]). *)
Record StorageUploader : Type := mkStorageUploader {
  provider : UploaderProvider;
  crypter : Crypter
}.

Definition NewStorageUploader (upl : UploaderProvider) (w : World)
  : StorageUploader * St :=
  let w := DisableSizeTracking upl w in
  ({| provider := upl; crypter := ConfigureCrypter internal |},
   {| world := w; trace := []; buf := [] |}).

Definition UploadOplogArchive (su : StorageUploader) (stream : Reader)
  (firstTS lastTS : Timestamp) : M St (option error) :=
  let '(arch, err) :=
    NewArchive codec firstTS lastTS
      (FileExtension internal (Compression (provider su))) ArchiveTypeOplog in
  match err with
  | Some err => ret (Some (Errorf_w "can not build archive: " err ""))
  | None =>
      call '(_, err) <-
        buf_ReadFrom
          (CompressAndEncrypt internal stream (Compression (provider su))
             (crypter su));
      (* defer su.buf.Reset() *)
      call result <-
        match err with
        | Some err => ret (Some err)
        | None =>
            call b <- buf_Bytes;
            invoke (EvUpload (Filename codec arch) (bytes_NewReader b))
              (Upload (provider su) (Filename codec arch) (bytes_NewReader b))
        end;
      call _ <- buf_Reset;
      ret result
  end%go.

Definition UploadGapArchive (su : StorageUploader) (archErr : option error)
  (firstTS lastTS : Timestamp) : M St (option error) :=
  match archErr with
  | None => ret (Some (Errorf "archErr must not be nil"))
  | Some archErr =>
      let '(arch, err) :=
        NewArchive codec firstTS lastTS
          (FileExtension internal (Compression (provider su))) ArchiveTypeGap in
      match err with
      | Some err => ret (Some (Errorf_w "can not build archive: " err ""))
      | None =>
          call err <-
            invoke
              (EvPushStreamToDestination (strings_NewReader (Error archErr))
                 (Filename codec arch))
              (PushStreamToDestination (provider su)
                 (strings_NewReader (Error archErr)) (Filename codec arch));
          match err with
          | Some err => ret (Some (Errorf_w "error while uploading stream: " err ""))
          | None => ret None
          end
      end
  end%go.

Definition UploadBackup (su : StorageUploader) (stream : Reader)
  (cmd : ErrWaiter) (metaProvider : MongoMetaProvider) : M St (option error) :=
  (call timeStart <- invoke EvTimeNow (TimeNowCrossPlatformLocal internal);
   call '(backupName, err) <-
     invoke (EvPushStream stream) (PushStream (provider su) stream);
   match err with
   | Some err => ret (Some err)
   | None =>
       call err <- invoke EvFinalize (Finalize metaProvider);
       match err with
       | Some err => ret (Some err)
       | None =>
           call err <- invoke EvWait (Wait cmd);
           match err with
           | Some err => ret (Some err)
           | None =>
               call finish <- invoke EvTimeNow (TimeNowCrossPlatformLocal internal);
               call userData <-
                 invoke EvGetSentinelUserData (GetSentinelUserData internal);
               call meta <- invoke EvMeta (Meta metaProvider);
               let backupSentinel :=
                 {| BackupName := "";
                    StartLocalTime := timeStart;
                    FinishLocalTime := finish;
                    UserData := userData;
                    MongoMeta := meta |} in
               invoke (EvUploadSentinel backupSentinel backupName)
                 (UploadSentinel internal (provider su) backupSentinel backupName)
           end
       end
   end)%go.

(** **** Clients of a StorageUploader *)

(** A call to one of the three methods of the [Uploader] interface. *)
Inductive UCall : Type :=
| CallUploadOplogArchive (stream : Reader) (firstTS lastTS : Timestamp)
| CallUploadGapArchive (archErr : option error) (firstTS lastTS : Timestamp)
| CallUploadBackup (stream : Reader) (cmd : ErrWaiter)
    (metaProvider : MongoMetaProvider).

Definition run_call (su : StorageUploader) (c : UCall) : M St (option error) :=
  match c with
  | CallUploadOplogArchive stream firstTS lastTS =>
      UploadOplogArchive su stream firstTS lastTS
  | CallUploadGapArchive archErr firstTS lastTS =>
      UploadGapArchive su archErr firstTS lastTS
  | CallUploadBackup stream cmd metaProvider =>
      UploadBackup su stream cmd metaProvider
  end.

(** The state after a client has made the calls [cs], one after the
    other, whatever each returned. *)
Fixpoint run_calls (su : StorageUploader) (cs : list UCall) (s : St) : St :=
  match cs with
  | [] => s
  | c :: cs' => run_calls su cs' (run_call su c s).2
  end.

(** The calls made between a state [s] and a later state [s']. *)
Definition ucalls_since (s s' : St) : list UEvent :=
  drop (length (trace s)) (trace s').



End Uploader.

(** *** StoragePurger *)

Section Purger.
(** The Purger's folders are handles of type [FolderRef] into the
    store, which is part of the world. *)
Context {World FolderRef : Type}.

(** The calls the Purger makes to the store. *)
Inductive PEvent : Type :=
| EvGetTarNames (b : BackupHandle FolderRef)
| EvDeleteObjects (folder : FolderRef) (keys : list string).

Record PState : Type := mkPState {
  pworld : World;
  ptrace : list PEvent
}.

(** What the Purger calls and is not under src: the methods
    [GetTarNames] and [GetStopSentinelPath] of [internal.Backup], and
    [DeleteObjects] of [storage.Folder].  [GetTarNames] lists the
    data parts; a listing reads the world and leaves it as it is. *)
Record Store : Type := mkStore {
  GetTarNames : BackupHandle FolderRef -> World -> list string * option error;
  GetStopSentinelPath : BackupHandle FolderRef -> string;
  DeleteObjects : FolderRef -> list string -> World -> option error * World
}.

Record StoragePurger : Type := mkStoragePurger {
  p_oplogsFolder : FolderRef;
  p_backupsFolder : FolderRef
}.

Variable codec : Codec.
Variable store : Store.

Definition pinvoke {A} (ev : PEvent) (f : World -> A * World) : M PState A :=
  fun s =>
    let (a, w) := f (pworld s) in
    (a, {| pworld := w; ptrace := ptrace s ++ [ev] |}).

(** The loop of [DeleteBackups], with the slice [keys] built so far. *)
Fixpoint DeleteBackups_loop (sp : StoragePurger) (backups : list Backup)
  (keys : list string) : M PState (list string * option error) :=
  match backups with
  | [] => ret (keys, None)
  | backup :: backups' =>
      let b := NewBackup (p_backupsFolder sp) (BackupName backup) in
      call '(dataKeys, err) <-
        pinvoke (EvGetTarNames b) (fun w => (GetTarNames store b w, w));
      match err with
      | Some err => ret ([], Some err)
      | None =>
          let keys := keys ++ dataKeys in
          let keys := keys ++ [GetStopSentinelPath store b] in
          DeleteBackups_loop sp backups' keys
      end
  end%go.

Definition DeleteBackups (sp : StoragePurger) (backups : list Backup)
  : M PState (option error) :=
  (call '(keys, err) <- DeleteBackups_loop sp backups [];
   match err with
   | Some err => ret (Some err)
   | None =>
       call err <-
         pinvoke (EvDeleteObjects (p_backupsFolder sp) keys)
           (DeleteObjects store (p_backupsFolder sp) keys);
       match err with
       | Some err => ret (Some err)
       | None => ret None
       end
   end)%go.

(** The handle [DeleteBackups] makes for a backup, whether its data
    parts can be listed in a world, and the keys it owns there: every
    data-part key, then the sentinel key. *)
Definition handle_of (sp : StoragePurger) (backup : Backup)
  : BackupHandle FolderRef :=
  NewBackup (p_backupsFolder sp) (BackupName backup).

Definition lists_parts (sp : StoragePurger) (w : World) (backup : Backup)
  : Prop :=
  (GetTarNames store (handle_of sp backup) w).2 = None.

Definition owned_keys (sp : StoragePurger) (w : World) (backup : Backup)
  : list string :=
  (GetTarNames store (handle_of sp backup) w).1
    ++ [GetStopSentinelPath store (handle_of sp backup)].

Definition DeleteOplogArchives (sp : StoragePurger) (archives : list Archive)
  : M PState (option error) :=
  let oplogKeys := map (Filename codec) archives in
  pinvoke (EvDeleteObjects (p_oplogsFolder sp) oplogKeys)
    (DeleteObjects store (p_oplogsFolder sp) oplogKeys).

End Purger.

End Archive.

(** ** Package [internal]: the file-restore dispatcher *)

Module Internal.

(** The restore options read by the dispatcher. *)
Record BackupFileOptions : Type := mkOptions {
  isIncremented : bool;
  isPageFile : bool
}.

Section Unwrapper.
(** [*tar.Header], [*os.File] and the [ReadWriterAt] target are opaque
    to the dispatcher; of a file it reads the name only. *)
Context {World Header File ReadWriterAt : Type}.

(** The calls the dispatcher makes. *)
Inductive FEvent : Type :=
| EvNewReadWriterAtFrom (file : File)
| EvCreateFileFromIncrement (reader : Reader) (target : option ReadWriterAt)
| EvWriteLocalFile (reader : Reader) (header : Header) (file : File)
| EvWritePagesFromIncrement (reader : Reader) (target : option ReadWriterAt)
    (overwrite : bool)
| EvRestoreMissingPages (reader : Reader) (target : option ReadWriterAt).

Record FState : Type := mkFState {
  fworld : World;
  ftrace : list FEvent
}.

(** The restore functions of package [internal] that the dispatcher
    routes to; none of them is under src.  [NewReadWriterAtFrom]
    returns a target (Go's [nil] is [None]) and an error. *)
Record Restorers : Type := mkRestorers {
  File_Name : File -> string;
  NewReadWriterAtFrom :
    File -> World -> option ReadWriterAt * option error * World;
  CreateFileFromIncrement :
    Reader -> option ReadWriterAt -> World -> option error * World;
  writeLocalFile :
    BackupFileOptions -> Reader -> Header -> File -> World ->
    option error * World;
  WritePagesFromIncrement :
    Reader -> option ReadWriterAt -> bool -> World -> option error * World;
  RestoreMissingPages :
    Reader -> option ReadWriterAt -> World -> option error * World
}.

(** [BackupFileUnwrapper], embedded in [DefaultFileUnwrapper]. *)
Record BackupFileUnwrapper : Type := mkBackupFileUnwrapper {
  options : BackupFileOptions
}.

Record DefaultFileUnwrapper : Type := mkDefaultFileUnwrapper {
  base : BackupFileUnwrapper
}.

Variable r : Restorers.

Definition finvoke {A} (ev : FEvent) (f : World -> A * World) : M FState A :=
  fun s =>
    let (a, w) := f (fworld s) in
    (a, {| fworld := w; ftrace := ftrace s ++ [ev] |}).

Definition UnwrapNewFile (u : DefaultFileUnwrapper) (reader : Reader)
  (header : Header) (file : File) : M FState (option error) :=
  (if isIncremented (options (base u)) then
     call '(targetReadWriterAt, err) <-
       finvoke (EvNewReadWriterAtFrom file) (NewReadWriterAtFrom r file);
     match err with
     | Some err => ret (Some err)
     | None =>
         call err <-
           finvoke (EvCreateFileFromIncrement reader targetReadWriterAt)
             (CreateFileFromIncrement r reader targetReadWriterAt);
         ret (Wrapf err
                ("Interpret: failed to create file from increment '"
                   +:+ File_Name r file +:+ "'"))
     end
   else
     finvoke (EvWriteLocalFile reader header file)
       (writeLocalFile r (options (base u)) reader header file))%go.

Definition UnwrapExistingFile (u : DefaultFileUnwrapper) (reader : Reader)
  (header : Header) (file : File) : M FState (option error) :=
  (call '(targetReadWriterAt, err) <-
     finvoke (EvNewReadWriterAtFrom file) (NewReadWriterAtFrom r file);
   match err with
   | Some err => ret (Some err)
   | None =>
       if isIncremented (options (base u)) then
         call err <-
           finvoke (EvWritePagesFromIncrement reader targetReadWriterAt false)
             (WritePagesFromIncrement r reader targetReadWriterAt false);
         ret (Wrapf err
                ("Interpret: failed to write increment to file '"
                   +:+ File_Name r file +:+ "'"))
       else if isPageFile (options (base u)) then
         call err <-
           finvoke (EvRestoreMissingPages reader targetReadWriterAt)
             (RestoreMissingPages r reader targetReadWriterAt);
         ret (Wrapf err
                ("Interpret: failed to restore pages for file '"
                   +:+ File_Name r file +:+ "'"))
       else
         (* skip the non-page file because newer version is already on the disk *)
         ret None
   end)%go.

(** The calls made between a state [s] and a later state [s']. *)
Definition calls_since (s s' : FState) : list FEvent :=
  drop (length (ftrace s)) (ftrace s').

End Unwrapper.

End Internal.

(** ** Concrete collaborators

    A small in-memory object store and stand-ins for the functions that are
    not under src, used to run the embedding on concrete inputs. *)

Module Fixture.
Import Archive Internal.

Definition ts (n : N) : Timestamp := {| TS := n; Inc := 0 |}.

(** Modelled from the spec: [models.NewArchive] is not under src.  The
    spec's invariant of an archive is [Start ≤ End]; an archive that would
    break it is refused. *)
Definition NewArchive (start end_ : Timestamp) (ext : string)
  (atype : ArchiveType) : Archive * option error :=
  if LessTS end_ start
  then (zeroArchive, Some (Errorf "malformed archive, start timestamp > end timestamp"))
  else ({| Start := start; End := end_; Ext := ext; Type_ := atype |}, None).

Definition type_name (t : ArchiveType) : string :=
  match t with
  | ArchiveTypeOplog => "oplog"
  | ArchiveTypeGap => "gap"
  end.

Definition ts_name (t : Timestamp) : string :=
  pretty (TS t) +:+ "." +:+ pretty (Inc t).

(** A key that spells out [(Start, End, Type, extension)]. *)
Definition Filename (a : Archive) : string :=
  type_name (Type_ a) +:+ "_" +:+ ts_name (Start a) +:+ "_"
    +:+ ts_name (End a) +:+ "." +:+ Ext a.

(** The archives this store has ever been given. *)
Definition known : list Archive :=
  [ {| Start := ts 100; End := ts 200; Ext := "br"; Type_ := ArchiveTypeOplog |};
    {| Start := ts 200; End := ts 350; Ext := "br"; Type_ := ArchiveTypeOplog |};
    {| Start := ts 350; End := ts 400; Ext := "br"; Type_ := ArchiveTypeGap |} ].

(** Decoding a key: the archive it names, among the known ones. *)
Definition ArchFromFilename (name : string) : Archive * option error :=
  match find (fun a => String.eqb (Filename a) name) known with
  | Some a => (a, None)
  | None => (zeroArchive, Some (Errorf ("can not parse archive name: " +:+ name)))
  end.

Definition codec : Codec :=
  {| Models.NewArchive := NewArchive;
     Models.Filename := Filename;
     Models.ArchFromFilename := ArchFromFilename |}.

(** *** Downloader *)

Definition obj (name : string) : Object :=
  {| GetName := name; GetLastModified := 0%Z |}.

Definition folder_of (names : list string) : Folder :=
  {| ListFolder := (map obj names, [], None) |}.

Definition good_names : list string :=
  [ "oplog_100.0_200.0.br"; "oplog_200.0_350.0.br"; "gap_350.0_400.0.br" ].

Definition downloader (oplogs : list string) : StorageDownloader :=
  {| oplogsFolder := folder_of oplogs; backupsFolder := folder_of [] |}.

(** Sentinels of three backups; the one named "lost" cannot be fetched. *)
Definition FetchStreamSentinel (b : BackupHandle Folder) (sentinel : Backup)
  : Backup * option error :=
  if String.eqb (Name b) "monday" then
    ({| BackupName := "monday"; StartLocalTime := 10%Z; FinishLocalTime := 20%Z;
        UserData := ""; MongoMeta := "" |}, None)
  else if String.eqb (Name b) "tuesday" then
    ({| BackupName := ""; StartLocalTime := 30%Z; FinishLocalTime := 45%Z;
        UserData := ""; MongoMeta := "" |}, None)
  else if String.eqb (Name b) "wednesday" then
    ({| BackupName := "wednesday"; StartLocalTime := 50%Z; FinishLocalTime := 60%Z;
        UserData := ""; MongoMeta := "" |}, None)
  else (sentinel, Some (Errorf "object not found")).

(** A sorting function that meets the contract of [sort.Slice]. *)
Definition sort_Slice : sorter :=
  fun A less l =>
    @merge_sort A (fun a b => less b a = false)
      (fun a b => decide (less b a = false)) l.

Definition utility : Utility :=
  {| SentinelSuffix := "_backup_stop_sentinel.json";
     StripBackupName := fun key =>
       String.substring 0 (String.length key - 26) key;
     StripWalFileName := fun _ => "" |}.

(** A backups folder with two sentinels and one data object. *)
Definition backups_listing : Folder :=
  {| ListFolder :=
       ([ {| GetName := "monday_backup_stop_sentinel.json"; GetLastModified := 20%Z |};
          {| GetName := "monday/tar_partitions/part_1.tar.br"; GetLastModified := 15%Z |};
          {| GetName := "tuesday_backup_stop_sentinel.json"; GetLastModified := 45%Z |} ],
        ["monday"], None) |}.

Definition lister : StorageDownloader :=
  {| oplogsFolder := folder_of []; backupsFolder := backups_listing |}.

(** A folder that cannot be listed. *)
Definition unreachable : StorageDownloader :=
  {| oplogsFolder := {| ListFolder := ([], [], Some (Errorf "connection reset")) |};
     backupsFolder := {| ListFolder := ([], [], Some (Errorf "connection reset")) |} |}.

(** *** Uploader *)

(** The object store and a clock. *)
Record World : Type := mkWorld {
  objects : gmap string (list Byte.byte);
  clock : Z
}.

Definition put (key : string) (content : list Byte.byte) (w : World) : World :=
  {| objects := <[key := content]> (objects w); clock := clock w |}.

Definition internals : @Internals World string unit :=
  {| FileExtension := fun c => c;
     ConfigureCrypter := tt;
     CompressAndEncrypt := fun r _ _ => r;
     TimeNowCrossPlatformLocal := fun w =>
       (clock w, {| objects := objects w; clock := (clock w + 1)%Z |});
     GetSentinelUserData := fun w => ("", w);
     UploadSentinel := fun _ sentinel backupName w =>
       (None,
        put (backupName +:+ "_backup_stop_sentinel.json")
          (String.list_byte_of_string (MongoMeta sentinel)) w) |}.

Definition uploaderProvider : @UploaderProvider World string :=
  {| Compression := "br";
     PushStream := fun stream w =>
       ("stream_1", rerr stream,
        put "stream_1/tar_partitions/part_1.tar.br" (rdata stream) w);
     PushStreamToDestination := fun stream dstPath w =>
       (rerr stream, put dstPath (rdata stream) w);
     Upload := fun path content w => (rerr content, put path (rdata content) w);
     DisableSizeTracking := fun w => w |}.

Definition storageUploader : @StorageUploader World string unit :=
  {| provider := uploaderProvider; crypter := tt |}.

Definition empty_world : World := {| objects := ∅; clock := 1000%Z |}.

Definition start : UState World :=
  {| world := empty_world; trace := []; buf := [] |}.

Definition dump : Reader := strings_NewReader "mongodump".

(** The producing process exits with an error. *)
Definition failing_cmd : @ErrWaiter World :=
  {| Wait := fun w => (Some (Errorf "exit status 1"), w) |}.

Definition metaProvider : @MongoMetaProvider World :=
  {| Finalize := fun w => (None, w); Meta := fun w => ("{}", w) |}.

Definition boom : error := Errorf "oplog cursor lost".

(** The producing process exits cleanly. *)
Definition ok_cmd : @ErrWaiter World :=
  {| Wait := fun w => (None, w) |}.

(** A stream that breaks after three bytes. *)
Definition broken_stream : Reader :=
  {| rdata := String.list_byte_of_string "abc";
     rerr := Some (Errorf "unexpected EOF") |}.

(** An [io.ReaderFrom] that counts and drops what it reads. *)
Definition devnull : @ReaderFrom World :=
  {| ReadFrom := fun r w => (Z.of_nat (length (rdata r)), rerr r, w) |}.

(** *** Purger *)

(** The data parts of the backup named "unlisted" cannot be listed. *)
Definition store : @Store World string :=
  {| GetTarNames := fun b _ =>
       if String.eqb (Name b) "unlisted"
       then ([], Some (Errorf "can not list tar_partitions"))
       else ([Name b +:+ "/tar_partitions/part_1.tar.br";
              Name b +:+ "/tar_partitions/part_2.tar.br"], None);
     GetStopSentinelPath := fun b => Name b +:+ "_backup_stop_sentinel.json";
     DeleteObjects := fun _ keys w =>
       (None,
        {| objects := foldr (fun k m => delete k m) (objects w) keys;
           clock := clock w |}) |}.

Definition purger : @StoragePurger string :=
  {| p_oplogsFolder := "oplog_005"; p_backupsFolder := "basebackups_005" |}.

Definition backup_named (name : string) : Backup :=
  {| BackupName := name; StartLocalTime := 0%Z; FinishLocalTime := 0%Z;
     UserData := ""; MongoMeta := "" |}.

Definition pstart : @PState World string :=
  {| pworld := empty_world; ptrace := [] |}.

(** *** File restore *)

(** A file by its name and whether it is still open; the target built
    over a file is named after it. *)
Definition restorers : @Restorers unit unit (string * bool) string :=
  {| File_Name := fun f : string * bool => f.1;
     NewReadWriterAtFrom := fun (f : string * bool) w =>
       if f.2 then (Some f.1, None, w)
       else (None, Some (Errorf ("stat " +:+ f.1 +:+ ": file already closed")), w);
     CreateFileFromIncrement := fun _ _ w => (None, w);
     writeLocalFile := fun _ _ _ _ w => (None, w);
     WritePagesFromIncrement := fun _ _ _ w => (None, w);
     RestoreMissingPages := fun _ _ w => (None, w) |}.

Definition unwrapper (incremented page : bool) : DefaultFileUnwrapper :=
  {| base := {| options := {| isIncremented := incremented; isPageFile := page |} |} |}.

Definition fstart : @FState unit unit (string * bool) string :=
  {| fworld := tt; ftrace := [] |}.

Definition increment : Reader := strings_NewReader "pages".

End Fixture.

(** * Properties *)

Import Archive Internal.

(** ** Timestamps *)

Section TimestampOrder.

Lemma LessTS_spec a b :
  LessTS a b = true <->
  (TS a < TS b)%N \/ (TS a = TS b /\ (Inc a < Inc b)%N).
Proof.
  unfold LessTS. destruct (N.eqb_spec (TS a) (TS b)) as [Heq | Hne]; simpl.
  - rewrite N.ltb_lt. lia.
  - rewrite N.ltb_lt. lia.
Qed.

Lemma LessTS_false a b :
  LessTS a b = false <->
  (TS b < TS a)%N \/ (TS a = TS b /\ (Inc b <= Inc a)%N).
Proof.
  rewrite <- not_true_iff_false, LessTS_spec. lia.
Qed.

Lemma LeTS_refl a : LeTS a a.
Proof. apply LessTS_false. lia. Qed.

Lemma LeTS_trans a b c : LeTS a b -> LeTS b c -> LeTS a c.
Proof. unfold LeTS. rewrite !LessTS_false. lia. Qed.

Lemma LeTS_antisym a b : LeTS a b -> LeTS b a -> a = b.
Proof.
  unfold LeTS. rewrite !LessTS_false. destruct a as [s1 i1], b as [s2 i2].
  simpl. intros H1 H2. f_equal; lia.
Qed.

Lemma LeTS_zero a : LeTS zeroTS a.
Proof. apply LessTS_false. simpl. lia. Qed.

Lemma MaxTS_cases a b :
  (MaxTS a b = a /\ LeTS b a) \/ (MaxTS a b = b /\ LeTS a b).
Proof.
  unfold MaxTS, LeTS. destruct (LessTS a b) eqn:Hab.
  - right. split; [reflexivity |]. apply LessTS_false.
    apply LessTS_spec in Hab. lia.
  - left. split; reflexivity.
Qed.

Lemma MaxTS_ge_l a b : LeTS a (MaxTS a b).
Proof.
  destruct (MaxTS_cases a b) as [[-> _] | [-> H]]; [apply LeTS_refl | exact H].
Qed.

Lemma MaxTS_ge_r a b : LeTS b (MaxTS a b).
Proof.
  destruct (MaxTS_cases a b) as [[-> H] | [-> _]]; [exact H | apply LeTS_refl].
Qed.

Lemma MaxTS_comm a b : MaxTS a b = MaxTS b a.
Proof.
  apply LeTS_antisym.
  - destruct (MaxTS_cases a b) as [[-> _] | [-> _]];
      [apply MaxTS_ge_r | apply MaxTS_ge_l].
  - destruct (MaxTS_cases b a) as [[-> _] | [-> _]];
      [apply MaxTS_ge_r | apply MaxTS_ge_l].
Qed.

End TimestampOrder.

(** ** Downloader *)

Section DownloaderFacts.
Variable codec : Codec.

Lemma decodes_dec (o : Object) : {decodes codec o} + {~ decodes codec o}.
Proof.
  unfold decodes. destruct (ArchFromFilename codec (GetName o)).2.
  - right. discriminate.
  - left. reflexivity.
Qed.

(** Every undecodable listing has a first undecodable key. *)
Lemma first_undecodable (objects : list Object) :
  Exists (fun o => ~ decodes codec o) objects ->
  exists good key rest err,
    objects = good ++ key :: rest /\ Forall (decodes codec) good /\
    (ArchFromFilename codec (GetName key)).2 = Some err.
Proof.
  induction objects as [| o objects IH]; intros Hex.
  - inversion Hex.
  - destruct (decodes_dec o) as [Ho | Ho].
    + assert (Hrest : Exists (fun o => ~ decodes codec o) objects)
        by (inversion Hex; [contradiction | assumption]).
      destruct (IH Hrest) as (good & key & rest & err & -> & Hgood & Herr).
      exists (o :: good), key, rest, err. repeat split; auto.
    + unfold decodes in Ho.
      destruct (ArchFromFilename codec (GetName o)).2 as [err |] eqn:E;
        [| contradiction].
      exists [], o, objects, err. repeat split; auto.
Qed.

Lemma ListOplogArchives_loop_decoded objects archives :
  Forall (decodes codec) objects ->
  ListOplogArchives_loop codec objects archives =
    (Slice (archives ++ map (decoded codec) objects), None).
Proof.
  intros Hall. revert archives.
  induction Hall as [| o objects Ho _ IH]; intros archives; simpl.
  - by rewrite app_nil_r.
  - unfold decodes in Ho. unfold decoded at 1.
    destruct (ArchFromFilename codec (GetName o)) as [arch err].
    simpl in Ho. subst err. rewrite IH. by rewrite <- app_assoc.
Qed.

Lemma ListOplogArchives_loop_first_failure good key rest err archives :
  Forall (decodes codec) good ->
  (ArchFromFilename codec (GetName key)).2 = Some err ->
  ListOplogArchives_loop codec (good ++ key :: rest) archives =
    (nil_slice,
     Some (Errorf_w
       ("can not convert retrieve timestamps since oplog archive Ext '"
          +:+ GetName key +:+ "': ") err "")).
Proof.
  intros Hgood Hkey. revert archives.
  induction Hgood as [| o good Ho _ IH]; intros archives; simpl.
  - destruct (ArchFromFilename codec (GetName key)) as [arch e].
    simpl in Hkey. by subst e.
  - unfold decodes in Ho.
    destruct (ArchFromFilename codec (GetName o)) as [arch e].
    simpl in Ho. subst e. apply IH.
Qed.

(** C2. [ListOplogArchives] is all-or-nothing.  When the folder lists its
    objects: if every key decodes, the result is the slice of all decoded
    archives, in listing order, with no error; if some key does not
    decode, the result is the nil slice together with an error that names
    the first such key and wraps its decoding error. *)
Theorem ListOplogArchives_all_or_nothing sd objects subs :
  ListFolder (oplogsFolder sd) = (objects, subs, None) ->
  (Forall (decodes codec) objects ->
     ListOplogArchives codec sd = (Slice (map (decoded codec) objects), None))
  /\ (Exists (fun o => ~ decodes codec o) objects ->
     exists good key rest err,
       objects = good ++ key :: rest /\ Forall (decodes codec) good /\
       (ArchFromFilename codec (GetName key)).2 = Some err /\
       ListOplogArchives codec sd =
         (nil_slice,
          Some (Errorf_w
            ("can not convert retrieve timestamps since oplog archive Ext '"
               +:+ GetName key +:+ "': ") err "")) /\
       len (ListOplogArchives codec sd).1 = 0).
Proof.
  intros Hlist. unfold ListOplogArchives. rewrite Hlist. split.
  - intros Hall. by rewrite ListOplogArchives_loop_decoded.
  - intros Hex.
    destruct (first_undecodable objects Hex)
      as (good & key & rest & err & -> & Hgood & Herr).
    exists good, key, rest, err.
    rewrite (ListOplogArchives_loop_first_failure good key rest err [] Hgood Herr).
    repeat split; auto.
Qed.

(** The running maximum of [LastKnownArchiveTS]. *)
Lemma LastKnownArchiveTS_loop_decoded keys maxTS :
  Forall (decodes codec) keys ->
  LastKnownArchiveTS_loop codec keys maxTS =
    (foldl (fun m o => MaxTS m (End (decoded codec o))) maxTS keys, None).
Proof.
  intros Hall. revert maxTS.
  induction Hall as [| o keys Ho _ IH]; intros maxTS; simpl.
  - reflexivity.
  - unfold decodes in Ho.
    assert (Harch : decoded codec o = (ArchFromFilename codec (GetName o)).1)
      by reflexivity.
    destruct (ArchFromFilename codec (GetName o)) as [arch err].
    simpl in Ho, Harch. subst err. rewrite Harch. apply IH.
Qed.

Lemma foldl_MaxTS_upper keys m0 :
  let m := foldl (fun m o => MaxTS m (End (decoded codec o))) m0 keys in
  LeTS m0 m /\ Forall (fun o => LeTS (End (decoded codec o)) m) keys.
Proof.
  revert m0. induction keys as [| o keys IH]; intros m0; simpl.
  - split; [apply LeTS_refl | constructor].
  - destruct (IH (MaxTS m0 (End (decoded codec o)))) as [Hle Hall].
    split.
    + eapply LeTS_trans; [apply MaxTS_ge_l | exact Hle].
    + constructor; [| exact Hall].
      eapply LeTS_trans; [apply MaxTS_ge_r | exact Hle].
Qed.

Lemma foldl_MaxTS_attained keys m0 :
  let m := foldl (fun m o => MaxTS m (End (decoded codec o))) m0 keys in
  m = m0 \/ Exists (fun o => m = End (decoded codec o)) keys.
Proof.
  revert m0. induction keys as [| o keys IH]; intros m0; simpl.
  - by left.
  - destruct (IH (MaxTS m0 (End (decoded codec o)))) as [Heq | Hex].
    + destruct (MaxTS_cases m0 (End (decoded codec o))) as [[E _] | [E _]].
      * left. by rewrite Heq.
      * right. constructor. by rewrite Heq.
    + right. by constructor 2.
Qed.

Lemma foldl_MaxTS_is_max objects :
  is_max_End codec objects
    (foldl (fun m o => MaxTS m (End (decoded codec o))) zeroTS objects).
Proof.
  destruct (foldl_MaxTS_upper objects zeroTS) as [_ Hup].
  destruct (foldl_MaxTS_attained objects zeroTS) as [Hz | Hex].
  - repeat split; auto.
    intros Hne. destruct objects as [| o objects]; [contradiction |].
    constructor. rewrite Hz. apply LeTS_antisym.
    + apply LeTS_zero.
    + rewrite Hz in Hup. by inversion Hup.
  - repeat split; auto. intros ->. inversion Hex.
Qed.

Lemma is_max_End_unique objects objects' m m' :
  objects ≡ₚ objects' ->
  is_max_End codec objects m -> is_max_End codec objects' m' -> m = m'.
Proof.
  intros Hperm (Hup & Hnil & Hex) (Hup' & Hnil' & Hex').
  destruct objects as [| o objects].
  - apply Permutation_nil_l in Hperm. subst objects'.
    by rewrite Hnil, Hnil'.
  - assert (Hne' : objects' <> []).
    { intros ->. by apply Permutation_nil_r in Hperm. }
    specialize (Hex ltac:(discriminate)). specialize (Hex' Hne').
    rewrite Forall_forall in Hup, Hup'.
    apply Exists_exists in Hex as (a & Ha & ->).
    apply Exists_exists in Hex' as (b & Hb & ->).
    apply LeTS_antisym.
    + apply Hup'. by rewrite <- Hperm.
    + apply Hup. by rewrite Hperm.
Qed.

(** C3. Over decodable oplog-root objects, [LastKnownArchiveTS] returns
    the fold of [MaxTS] over the [End] of every decoded archive, which is
    the largest [End] of the listing (the zero timestamp for an empty
    listing), and a store that lists the same objects in another order
    gets the same answer. *)
Theorem LastKnownArchiveTS_is_max_End sd sd' objects objects' subs subs' :
  ListFolder (oplogsFolder sd) = (objects, subs, None) ->
  ListFolder (oplogsFolder sd') = (objects', subs', None) ->
  objects ≡ₚ objects' ->
  Forall (decodes codec) objects ->
  exists m,
    LastKnownArchiveTS codec sd = (m, None) /\
    LastKnownArchiveTS codec sd' = (m, None) /\
    m = foldl (fun m o => MaxTS m (End (decoded codec o))) zeroTS objects /\
    Forall (fun o => LeTS (End (decoded codec o)) m) objects /\
    (objects = [] -> m = zeroTS) /\
    (objects <> [] -> Exists (fun o => m = End (decoded codec o)) objects).
Proof.
  intros Hlist Hlist' Hperm Hall.
  assert (Hall' : Forall (decodes codec) objects') by (by rewrite <- Hperm).
  unfold LastKnownArchiveTS. rewrite Hlist, Hlist'.
  rewrite !LastKnownArchiveTS_loop_decoded by assumption.
  pose proof (foldl_MaxTS_is_max objects) as Hmax.
  pose proof (foldl_MaxTS_is_max objects') as Hmax'.
  eexists. split; [reflexivity |]. split.
  - f_equal. symmetry. eapply is_max_End_unique; eassumption.
  - split; [reflexivity | exact Hmax].
Qed.

End DownloaderFacts.

(** A listing of three archives decodes in full; with one malformed key the
    same call yields no archive at all. *)
Lemma ListOplogArchives_all_or_nothing_witness :
  ListOplogArchives Fixture.codec (Fixture.downloader Fixture.good_names) =
    (Slice Fixture.known, None) /\
  (ListOplogArchives Fixture.codec
     (Fixture.downloader ["oplog_100.0_200.0.br"; "junk"])).1 = nil_slice.
Proof.
  split.
  - destruct (ListOplogArchives_all_or_nothing Fixture.codec
                (Fixture.downloader Fixture.good_names)
                (map Fixture.obj Fixture.good_names) [] eq_refl) as [Hall _].
    rewrite Hall; [reflexivity |].
    repeat constructor.
  - destruct (ListOplogArchives_all_or_nothing Fixture.codec
                (Fixture.downloader ["oplog_100.0_200.0.br"; "junk"])
                (map Fixture.obj ["oplog_100.0_200.0.br"; "junk"]) [] eq_refl)
      as [_ Hbad].
    destruct Hbad as (good & key & rest & err & _ & _ & _ & Heq & _).
    + constructor 2. constructor. vm_compute. discriminate.
    + rewrite Heq. reflexivity.
Defined.

(** Three archives listed in two different orders: the answer is 400 both
    times. *)
Lemma LastKnownArchiveTS_is_max_End_witness :
  LastKnownArchiveTS Fixture.codec (Fixture.downloader Fixture.good_names) =
    (Fixture.ts 400, None) /\
  LastKnownArchiveTS Fixture.codec
    (Fixture.downloader
       ["gap_350.0_400.0.br"; "oplog_100.0_200.0.br"; "oplog_200.0_350.0.br"]) =
    (Fixture.ts 400, None).
Proof.
  destruct (LastKnownArchiveTS_is_max_End Fixture.codec
              (Fixture.downloader Fixture.good_names)
              (Fixture.downloader
                 ["gap_350.0_400.0.br"; "oplog_100.0_200.0.br";
                  "oplog_200.0_350.0.br"])
              (map Fixture.obj Fixture.good_names)
              (map Fixture.obj
                 ["gap_350.0_400.0.br"; "oplog_100.0_200.0.br";
                  "oplog_200.0_350.0.br"])
              [] [] eq_refl eq_refl)
    as (m & H1 & H2 & Hm & _).
  - simpl. etrans; [apply perm_skip, perm_swap | apply perm_swap].
  - repeat constructor.
  - rewrite H1, H2, Hm. split; reflexivity.
Defined.

Lemma StronglySorted_weaken {A} (R R' : A -> A -> Prop) (l : list A) :
  (forall a b, R a b -> R' a b) -> StronglySorted R l -> StronglySorted R' l.
Proof.
  intros Himpl Hs. induction Hs as [| a l Hs IH Hall]; constructor.
  - exact IH.
  - eapply Forall_impl; [exact Hall |]. intros b. apply Himpl.
Qed.

Section LoadBackupsFacts.
Variable FetchStreamSentinel : BackupHandle Folder -> Backup -> Backup * option error.
Variable sort_Slice : sorter.

Local Abbreviation BackupMeta := (BackupMeta FetchStreamSentinel).
Local Abbreviation resolves := (resolves FetchStreamSentinel).
Local Abbreviation resolved := (resolved FetchStreamSentinel).

Lemma LoadBackups_loop_resolved sd names backups :
  Forall (resolves sd) names ->
  LoadBackups_loop FetchStreamSentinel sd names backups =
    (backups ++ map (resolved sd) names, None).
Proof.
  intros Hall. revert backups.
  induction Hall as [| name names Hname _ IH]; intros backups; simpl.
  - by rewrite app_nil_r.
  - unfold Archive.resolves in Hname.
    assert (Hb : resolved sd name = (BackupMeta sd name).1) by reflexivity.
    destruct (BackupMeta sd name) as [backup err].
    simpl in Hname, Hb. subst err. rewrite IH, Hb. by rewrite <- app_assoc.
Qed.

Lemma LoadBackups_loop_first_failure sd pre name post err backups :
  Forall (resolves sd) pre ->
  (BackupMeta sd name).2 = Some err ->
  LoadBackups_loop FetchStreamSentinel sd (pre ++ name :: post) backups =
    ([], Some err).
Proof.
  intros Hpre Hname. revert backups.
  induction Hpre as [| n pre Hn _ IH]; intros backups; simpl.
  - destruct (BackupMeta sd name) as [backup e]. simpl in Hname. by subst e.
  - unfold Archive.resolves in Hn.
    destruct (BackupMeta sd n) as [backup e]. simpl in Hn. subst e. apply IH.
Qed.

(** "Finished after" is an ordering [sort.Slice] accepts. *)
Lemma After_FinishLocalTime_swo :
  strict_weak_order
    (fun bi bj : Backup => After (FinishLocalTime bi) (FinishLocalTime bj)).
Proof.
  unfold After. split.
  - intros a. apply Z.ltb_irrefl.
  - intros a b c. rewrite !Z.ltb_lt. lia.
  - intros a b c. rewrite !Z.ltb_ge. lia.
Qed.

(** C5. [LoadBackups] resolves each name with [BackupMeta].  If a name
    fails to resolve, the call returns the error of the first such name
    and the nil slice.  If all resolve, it returns one [Backup] per name
    (the resolved sentinels, rearranged) sorted by [FinishLocalTime] in
    descending order. *)
Theorem LoadBackups_sorted_or_first_error sd names :
  sorter_ok sort_Slice ->
  (forall pre name post err,
      names = pre ++ name :: post ->
      Forall (resolves sd) pre ->
      (BackupMeta sd name).2 = Some err ->
      LoadBackups FetchStreamSentinel sort_Slice sd names = (nil_slice, Some err))
  /\ (Forall (resolves sd) names ->
      exists backups,
        LoadBackups FetchStreamSentinel sort_Slice sd names = (Slice backups, None) /\
        backups ≡ₚ map (resolved sd) names /\
        length backups = length names /\
        StronglySorted
          (fun a b => (FinishLocalTime b <= FinishLocalTime a)%Z) backups).
Proof.
  intros [Hperm Hsorted]. split.
  - intros pre name post err -> Hpre Hname. unfold LoadBackups.
    by rewrite (LoadBackups_loop_first_failure sd pre name post err [] Hpre Hname).
  - intros Hall. unfold LoadBackups.
    rewrite (LoadBackups_loop_resolved sd names [] Hall). simpl.
    eexists. split; [reflexivity |]. split; [apply Hperm |]. split.
    + rewrite Hperm. by rewrite length_map.
    + eapply StronglySorted_weaken; [| apply Hsorted, After_FinishLocalTime_swo].
      intros a b Hab. unfold After in Hab. by apply Z.ltb_ge in Hab.
Qed.

End LoadBackupsFacts.

(** The sorting function of the fixture keeps the promise of [sort.Slice]. *)
Lemma Fixture_sort_Slice_ok : sorter_ok Fixture.sort_Slice.
Proof.
  split.
  - intros A less l. apply merge_sort_Permutation.
  - intros A less l [Hirr Htrans Hincomp]. unfold Fixture.sort_Slice.
    apply StronglySorted_merge_sort.
    + intros a b c Hab Hbc. eapply Hincomp; eassumption.
    + intros a b. destruct (less b a) eqn:Hba; [| by left].
      right. destruct (less a b) eqn:Hab; [| reflexivity].
      pose proof (Hirr a) as Ha. rewrite (Htrans a b a Hab Hba) in Ha.
      discriminate.
Qed.

(** Three backups come back most recent first; with a name that does not
    resolve nothing comes back. *)
Lemma LoadBackups_sorted_or_first_error_witness :
  (exists backups,
     LoadBackups Fixture.FetchStreamSentinel Fixture.sort_Slice
       (Fixture.downloader []) ["monday"; "wednesday"; "tuesday"] =
       (Slice backups, None) /\
     StronglySorted (fun a b => (FinishLocalTime b <= FinishLocalTime a)%Z) backups) /\
  (LoadBackups Fixture.FetchStreamSentinel Fixture.sort_Slice
     (Fixture.downloader []) ["monday"; "lost"; "tuesday"]).1 = nil_slice.
Proof.
  split.
  - destruct (LoadBackups_sorted_or_first_error Fixture.FetchStreamSentinel
                Fixture.sort_Slice (Fixture.downloader [])
                ["monday"; "wednesday"; "tuesday"] Fixture_sort_Slice_ok)
      as [_ Hok].
    destruct Hok as (backups & Heq & _ & _ & Hsorted).
    + repeat constructor.
    + exists backups. split; assumption.
  - destruct (LoadBackups_sorted_or_first_error Fixture.FetchStreamSentinel
                Fixture.sort_Slice (Fixture.downloader [])
                ["monday"; "lost"; "tuesday"] Fixture_sort_Slice_ok)
      as [Hfail _].
    rewrite (Hfail ["monday"] "lost" ["tuesday"]
               (Errorf_w "can not fetch stream sentinel: "
                  (Errorf "object not found") ""));
      [reflexivity | reflexivity | repeat constructor | reflexivity].
Defined.

(** ** Uploaders *)

Section UploaderFacts.
Context {World Compressor Crypter : Type}.
Variable codec : Codec.
Variable internal : @Internals World Compressor Crypter.

Local Abbreviation St := (UState World).

Lemma invoke_eq {A} ev (f : World -> A * World) (s : St) a w :
  f (world s) = (a, w) ->
  invoke ev f s = (a, mkUState w (trace s ++ [ev]) (buf s)).
Proof. intros Hf. unfold invoke. by rewrite Hf. Qed.

Lemma invoke_buf {A} ev (f : World -> A * World) (s : St) :
  buf (invoke ev f s).2 = buf s.
Proof. unfold invoke. by destruct (f (world s)). Qed.

(** C1. [UploadBackup] runs its steps in order and stops at the first
    step that fails: take the time, push the stream, [Finalize], [Wait],
    and only then take the finish time, the user data and the metadata
    and write the sentinel.  In particular, when [Wait] returns an error
    after the data were pushed, that error is returned, the world is the
    one [Wait] left, and no sentinel write was made. *)
Theorem UploadBackup_steps_in_order
    (su : StorageUploader) stream (cmd : ErrWaiter)
    (metaProvider : MongoMetaProvider) (s : St)
    timeStart w1 backupName pushErr w2 :
  TimeNowCrossPlatformLocal internal (world s) = (timeStart, w1) ->
  PushStream (provider su) stream w1 = (backupName, pushErr, w2) ->
  let run := UploadBackup internal su stream cmd metaProvider s in
  (forall err, pushErr = Some err ->
     run = (Some err,
            mkUState w2 (trace s ++ [EvTimeNow; EvPushStream stream]) (buf s)))
  /\ (forall err w3,
     pushErr = None ->
     Finalize metaProvider w2 = (Some err, w3) ->
     run = (Some err,
            mkUState w3 (trace s ++ [EvTimeNow; EvPushStream stream; EvFinalize])
              (buf s)))
  /\ (forall err w3 w4,
     pushErr = None ->
     Finalize metaProvider w2 = (None, w3) ->
     Wait cmd w3 = (Some err, w4) ->
     run = (Some err,
            mkUState w4
              (trace s ++ [EvTimeNow; EvPushStream stream; EvFinalize; EvWait])
              (buf s))
     /\ forall sentinel name,
          EvUploadSentinel sentinel name ∈ trace run.2 ->
          EvUploadSentinel sentinel name ∈ trace s)
  /\ (forall w3 w4 finish w5 userData w6 meta w7 sentinelErr w8,
     pushErr = None ->
     Finalize metaProvider w2 = (None, w3) ->
     Wait cmd w3 = (None, w4) ->
     TimeNowCrossPlatformLocal internal w4 = (finish, w5) ->
     GetSentinelUserData internal w5 = (userData, w6) ->
     Meta metaProvider w6 = (meta, w7) ->
     let sentinel :=
       {| BackupName := ""; StartLocalTime := timeStart;
          FinishLocalTime := finish; UserData := userData;
          MongoMeta := meta |} in
     UploadSentinel internal (provider su) sentinel backupName w7 =
       (sentinelErr, w8) ->
     run = (sentinelErr,
            mkUState w8
              (trace s ++ [EvTimeNow; EvPushStream stream; EvFinalize; EvWait;
                           EvTimeNow; EvGetSentinelUserData; EvMeta;
                           EvUploadSentinel sentinel backupName])
              (buf s))).
Proof.
  intros Hnow Hpush run. subst run.
  unfold UploadBackup, bind, ret.
  rewrite (invoke_eq _ _ _ _ _ Hnow).
  rewrite (invoke_eq _ _ (mkUState w1 _ _) _ _ Hpush). simpl.
  split; [| split; [| split]].
  - intros err ->. by rewrite <- app_assoc.
  - intros err w3 -> Hfin.
    rewrite (invoke_eq _ _ (mkUState w2 _ _) _ _ Hfin). simpl.
    by rewrite <- !app_assoc.
  - intros err w3 w4 -> Hfin Hwait.
    rewrite (invoke_eq _ _ (mkUState w2 _ _) _ _ Hfin). simpl.
    rewrite (invoke_eq _ _ (mkUState w3 _ _) _ _ Hwait). simpl.
    rewrite <- !app_assoc. simpl. split; [reflexivity |].
    intros sentinel name Hin.
    apply elem_of_app in Hin as [Hin | Hin]; [exact Hin |].
    repeat (apply elem_of_cons in Hin as [Hin | Hin]; [discriminate |]).
    by apply elem_of_nil in Hin.
  - intros w3 w4 finish w5 userData w6 meta w7 sentinelErr w8
      -> Hfin Hwait Hnow2 Hdata Hmeta Hsent.
    rewrite (invoke_eq _ _ (mkUState w2 _ _) _ _ Hfin). simpl.
    rewrite (invoke_eq _ _ (mkUState w3 _ _) _ _ Hwait). simpl.
    rewrite (invoke_eq _ _ (mkUState w4 _ _) _ _ Hnow2). simpl.
    rewrite (invoke_eq _ _ (mkUState w5 _ _) _ _ Hdata). simpl.
    rewrite (invoke_eq _ _ (mkUState w6 _ _) _ _ Hmeta). simpl.
    rewrite (invoke_eq _ _ (mkUState w7 _ _) _ _ Hsent). simpl.
    by rewrite <- !app_assoc.
Qed.

(** C4, as amended.  [UploadGapArchive] with a nil error returns the
    precondition error and touches nothing.  With an error [cause]: if
    the archive for [(firstTS, lastTS, extension, Gap)] cannot be built it
    returns the wrapped error and touches nothing; otherwise it makes
    exactly one store write, [PushStreamToDestination], whose key is the
    file name of that archive and whose content is the text of [cause],
    and it returns nil or the wrapped error of that write. *)
Theorem UploadGapArchive_one_write_or_none
    (su : StorageUploader) archErr firstTS lastTS (s : St) :
  let ext := FileExtension internal (Compression (provider su)) in
  let run := UploadGapArchive codec internal su archErr firstTS lastTS s in
  (archErr = None -> run = (Some (Errorf "archErr must not be nil"), s))
  /\ (forall cause arch err,
     archErr = Some cause ->
     NewArchive codec firstTS lastTS ext ArchiveTypeGap = (arch, Some err) ->
     run = (Some (Errorf_w "can not build archive: " err ""), s))
  /\ (forall cause arch pushErr w',
     archErr = Some cause ->
     NewArchive codec firstTS lastTS ext ArchiveTypeGap = (arch, None) ->
     let content := strings_NewReader (Error cause) in
     PushStreamToDestination (provider su) content (Filename codec arch)
       (world s) = (pushErr, w') ->
     run = (match pushErr with
            | Some e => Some (Errorf_w "error while uploading stream: " e "")
            | None => None
            end,
            mkUState w'
              (trace s ++ [EvPushStreamToDestination content (Filename codec arch)])
              (buf s))
     /\ rdata content = String.list_byte_of_string (Error cause)).
Proof.
  intros ext run. subst ext run. unfold UploadGapArchive.
  split; [| split].
  - by intros ->.
  - intros cause arch err -> Hnew. by rewrite Hnew.
  - intros cause arch pushErr w' -> Hnew Hpush. rewrite Hnew.
    unfold bind, ret. rewrite (invoke_eq _ _ _ _ _ Hpush).
    split; [by destruct pushErr | reflexivity].
Qed.

(** C8. The discard Uploader answers every gap upload with nil and
    leaves the state as it was, and its [UploadBackup] panics with
    "implement me": it never returns, so it never returns success. *)
Theorem DiscardUploader_gap_nil_backup_panics
    (d : @DiscardUploader World Compressor) archErr firstTS lastTS
    stream (cmd : ErrWaiter) (metaProvider : MongoMetaProvider) (s : St) :
  Discard_UploadGapArchive d archErr firstTS lastTS s = (None, s)
  /\ Discard_UploadBackup d stream cmd metaProvider s =
       (Panics "implement me", s)
  /\ (forall result,
       (Discard_UploadBackup d stream cmd metaProvider s).1 <> Returns result).
Proof. repeat split. intros result. discriminate. Qed.

(** What [UploadOplogArchive] does to the buffer: once the archive is
    built the deferred [Reset] runs, whatever the buffer held and however
    the call ends; if the archive cannot be built the buffer is left as
    it was. *)
Lemma UploadOplogArchive_buf (su : StorageUploader) stream firstTS lastTS (s : St) :
  let run := UploadOplogArchive codec internal su stream firstTS lastTS s in
  match (NewArchive codec firstTS lastTS
           (FileExtension internal (Compression (provider su)))
           ArchiveTypeOplog).2 with
  | None => buf run.2 = []
  | Some _ => run.2 = s
  end.
Proof.
  unfold UploadOplogArchive.
  destruct (NewArchive codec firstTS lastTS _ ArchiveTypeOplog) as [arch [err |]];
    simpl; [reflexivity |].
  unfold bind, buf_ReadFrom, buf_Bytes, buf_Reset, ret, invoke. simpl.
  destruct (rerr _); simpl; [reflexivity |].
  by destruct (Upload _ _ _ _).
Qed.

Lemma UploadGapArchive_buf (su : StorageUploader) archErr firstTS lastTS (s : St) :
  buf (UploadGapArchive codec internal su archErr firstTS lastTS s).2 = buf s.
Proof.
  unfold UploadGapArchive. destruct archErr as [cause |]; [| reflexivity].
  destruct (NewArchive codec firstTS lastTS _ ArchiveTypeGap) as [arch [err |]];
    [reflexivity |].
  unfold bind, ret, invoke. destruct (PushStreamToDestination _ _ _ _) as [[e |] w];
    reflexivity.
Qed.

Lemma UploadBackup_buf (su : StorageUploader) stream (cmd : ErrWaiter)
    (metaProvider : MongoMetaProvider) (s : St) :
  buf (UploadBackup internal su stream cmd metaProvider s).2 = buf s.
Proof.
  unfold UploadBackup, bind, ret, invoke.
  repeat (case_match; simpl in *; simplify_eq; try reflexivity).
Qed.

Lemma run_calls_buf_empty (su : StorageUploader) cs (s : St) :
  buf s = [] -> buf (run_calls codec internal su cs s) = [].
Proof.
  revert s. induction cs as [| c cs IH]; intros s Hs; simpl; [exact Hs |].
  apply IH. destruct c as [stream f l | archErr f l | stream cmd mp]; simpl.
  - pose proof (UploadOplogArchive_buf su stream f l s) as Hb. simpl in Hb.
    destruct (NewArchive codec f l _ ArchiveTypeOplog).2;
      [by rewrite Hb | exact Hb].
  - by rewrite UploadGapArchive_buf.
  - by rewrite UploadBackup_buf.
Qed.

(** C9. On a StorageUploader made by [NewStorageUploader], after any
    calls a client has made to its methods, a call to
    [UploadOplogArchive] leaves the buffer empty, whether it returns nil
    or an error; and what it hands to the store, if anything, is this
    call's compressed and encrypted stream alone. *)
Theorem UploadOplogArchive_leaves_buffer_empty
    (upl : UploaderProvider) (w : World) calls stream firstTS lastTS :
  let su := (NewStorageUploader internal upl w).1 in
  let s := run_calls codec internal su calls (NewStorageUploader internal upl w).2 in
  let run := UploadOplogArchive codec internal su stream firstTS lastTS s in
  buf run.2 = []
  /\ (trace run.2 = trace s
      \/ exists key,
           trace run.2 =
             trace s ++
               [EvUpload key
                  (bytes_NewReader
                     (rdata (CompressAndEncrypt internal stream
                               (Compression upl) (ConfigureCrypter internal))))]).
Proof.
  intros su s run.
  assert (Hs : buf s = []) by (by apply run_calls_buf_empty).
  split.
  - pose proof (UploadOplogArchive_buf su stream firstTS lastTS s) as Hb.
    simpl in Hb. fold run in Hb.
    destruct (NewArchive codec firstTS lastTS _ ArchiveTypeOplog).2;
      [by rewrite Hb | exact Hb].
  - subst run. unfold UploadOplogArchive.
    destruct (NewArchive codec firstTS lastTS _ ArchiveTypeOplog) as [arch [err |]];
      simpl; [by left |].
    unfold bind, buf_ReadFrom, buf_Bytes, buf_Reset, ret, invoke. simpl.
    destruct (rerr _); simpl; [by left |].
    rewrite Hs. simpl. destruct (Upload _ _ _ _) as [e w']. simpl.
    right. by eexists.
Qed.

End UploaderFacts.

(** A backup whose producing process fails: the error of [Wait] comes
    back, the data part is in the store and the sentinel is not. *)
Lemma UploadBackup_steps_in_order_witness :
  let run :=
    UploadBackup Fixture.internals Fixture.storageUploader Fixture.dump
      Fixture.failing_cmd Fixture.metaProvider Fixture.start in
  run.1 = Some (Errorf "exit status 1") /\
  trace run.2 = [EvTimeNow; EvPushStream Fixture.dump; EvFinalize; EvWait] /\
  Fixture.objects (world run.2) !! "stream_1/tar_partitions/part_1.tar.br" =
    Some (rdata Fixture.dump) /\
  Fixture.objects (world run.2) !! "stream_1_backup_stop_sentinel.json" = None.
Proof.
  destruct (UploadBackup_steps_in_order Fixture.internals Fixture.storageUploader
              Fixture.dump Fixture.failing_cmd Fixture.metaProvider Fixture.start
              _ _ _ _ _ eq_refl eq_refl) as (_ & _ & Hwait & _).
  destruct (Hwait (Errorf "exit status 1") _ _ eq_refl eq_refl eq_refl)
    as [Heq _].
  cbv zeta. rewrite Heq. repeat split; vm_compute; reflexivity.
Defined.

(** A gap for [[5, 3)] with a cause: the archive is refused, an error comes
    back, and no write reaches the store, which stays empty. *)
Lemma UploadGapArchive_nonnil_cause_no_write :
  let run :=
    UploadGapArchive Fixture.codec Fixture.internals Fixture.storageUploader
      (Some Fixture.boom) (Fixture.ts 5) (Fixture.ts 3) Fixture.start in
  run.1 <> None /\
  trace run.2 = [] /\
  Fixture.objects (world run.2) = ∅ /\
  ~ (exists content key, trace run.2 = [EvPushStreamToDestination content key]).
Proof.
  vm_compute. repeat split; try discriminate.
  intros (content & key & H). discriminate.
Qed.

(** A gap for [[3, 5)] with a cause is written once, under the key of the
    Gap archive, with the text of the cause as content. *)
Lemma UploadGapArchive_one_write_or_none_witness :
  let run :=
    UploadGapArchive Fixture.codec Fixture.internals Fixture.storageUploader
      (Some Fixture.boom) (Fixture.ts 3) (Fixture.ts 5) Fixture.start in
  run.1 = None /\
  trace run.2 =
    [EvPushStreamToDestination (strings_NewReader "oplog cursor lost")
       "gap_3.0_5.0.br"] /\
  (UploadGapArchive Fixture.codec Fixture.internals Fixture.storageUploader
     None (Fixture.ts 3) (Fixture.ts 5) Fixture.start).2 = Fixture.start.
Proof.
  destruct (UploadGapArchive_one_write_or_none Fixture.codec Fixture.internals
              Fixture.storageUploader (Some Fixture.boom) (Fixture.ts 3)
              (Fixture.ts 5) Fixture.start) as (_ & _ & Hwrite).
  destruct (Hwrite Fixture.boom _ _ _ eq_refl eq_refl eq_refl) as [Heq _].
  destruct (UploadGapArchive_one_write_or_none Fixture.codec Fixture.internals
              Fixture.storageUploader None (Fixture.ts 3)
              (Fixture.ts 5) Fixture.start) as (Hnil & _).
  cbv zeta. rewrite Heq, (Hnil eq_refl). repeat split.
Defined.

(** ** Purger *)

Section PurgerFacts.
Context {World FolderRef : Type}.
Variable store : @Store World FolderRef.

Local Abbreviation PSt := (@PState World FolderRef).

Lemma DeleteBackups_loop_listed sp backups keys (s : PSt) :
  Forall (lists_parts store sp (pworld s)) backups ->
  DeleteBackups_loop store sp backups keys s =
    ((keys ++ flat_map (owned_keys store sp (pworld s)) backups, None),
     mkPState (pworld s)
       (ptrace s ++ map (fun b => EvGetTarNames (handle_of sp b)) backups)).
Proof.
  intros Hall. revert keys s Hall.
  induction backups as [| b backups IH]; intros keys s Hall; simpl.
  - rewrite !app_nil_r. by destruct s.
  - inversion Hall as [| ? ? Hb Hrest]; subst.
    unfold lists_parts, handle_of in Hb.
    unfold bind, pinvoke at 1. simpl.
    unfold owned_keys at 1, handle_of at 1 2 3.
    destruct (GetTarNames store _ (pworld s)) as [dataKeys err].
    simpl in Hb. subst err. simpl.
    rewrite IH by exact Hrest. simpl.
    by rewrite <- !app_assoc.
Qed.

Lemma DeleteBackups_loop_first_failure sp pre bad post err keys (s : PSt) :
  Forall (lists_parts store sp (pworld s)) pre ->
  (GetTarNames store (handle_of sp bad) (pworld s)).2 = Some err ->
  DeleteBackups_loop store sp (pre ++ bad :: post) keys s =
    (([], Some err),
     mkPState (pworld s)
       (ptrace s ++ map (fun b => EvGetTarNames (handle_of sp b)) (pre ++ [bad]))).
Proof.
  intros Hpre Hbad. revert keys s Hpre Hbad.
  induction pre as [| b pre IH]; intros keys s Hpre Hbad; simpl.
  - unfold bind, pinvoke. simpl. fold (handle_of sp bad).
    destruct (GetTarNames store (handle_of sp bad) (pworld s)) as [dataKeys e].
    simpl in Hbad. by subst e.
  - inversion Hpre as [| ? ? Hb Hrest]; subst.
    unfold lists_parts in Hb.
    unfold bind, pinvoke at 1. simpl. fold (handle_of sp b).
    destruct (GetTarNames store (handle_of sp b) (pworld s)) as [dataKeys e].
    simpl in Hb. subst e. simpl.
    rewrite IH by assumption. simpl. by rewrite <- !app_assoc.
Qed.

(** C7, as amended.  When the data parts of every given backup can be
    listed, [DeleteBackups] makes exactly one [DeleteObjects] call, on
    the backups folder, with every data-part key and the sentinel key of
    each backup, in order, and nothing else, and returns what that call
    returns.  When the data parts of some backup cannot be listed, it
    returns that error and makes no [DeleteObjects] call. *)
Theorem DeleteBackups_one_batch_or_none sp backups (s : PSt) :
  let run := DeleteBackups store sp backups s in
  (forall delErr w',
      Forall (lists_parts store sp (pworld s)) backups ->
      let keys := flat_map (owned_keys store sp (pworld s)) backups in
      DeleteObjects store (p_backupsFolder sp) keys (pworld s) = (delErr, w') ->
      run = (delErr,
             mkPState w'
               (ptrace s
                  ++ map (fun b => EvGetTarNames (handle_of sp b)) backups
                  ++ [EvDeleteObjects (p_backupsFolder sp) keys])))
  /\ (forall pre bad post err,
      backups = pre ++ bad :: post ->
      Forall (lists_parts store sp (pworld s)) pre ->
      (GetTarNames store (handle_of sp bad) (pworld s)).2 = Some err ->
      run = (Some err,
             mkPState (pworld s)
               (ptrace s
                  ++ map (fun b => EvGetTarNames (handle_of sp b)) (pre ++ [bad])))).
Proof.
  intros run. subst run. unfold DeleteBackups, bind. split.
  - intros delErr w' Hall Hdel.
    rewrite (DeleteBackups_loop_listed sp backups [] s Hall). simpl.
    unfold pinvoke. simpl. rewrite Hdel. simpl.
    rewrite <- app_assoc. by destruct delErr.
  - intros pre bad post err -> Hpre Hbad.
    by rewrite (DeleteBackups_loop_first_failure sp pre bad post err [] s Hpre Hbad).
Qed.

End PurgerFacts.

(** Two backups, the data parts of the second cannot be listed: an error
    comes back and no delete call is made at all. *)
Lemma DeleteBackups_no_batch_when_listing_fails :
  let run :=
    DeleteBackups Fixture.store Fixture.purger
      [Fixture.backup_named "monday"; Fixture.backup_named "unlisted"]
      Fixture.pstart in
  run.1 = Some (Errorf "can not list tar_partitions") /\
  ptrace run.2 =
    [EvGetTarNames (NewBackup "basebackups_005" "monday");
     EvGetTarNames (NewBackup "basebackups_005" "unlisted")] /\
  ~ (exists folder keys, EvDeleteObjects folder keys ∈ ptrace run.2).
Proof.
  vm_compute. repeat split.
  intros (folder & keys & Hin).
  repeat (apply elem_of_cons in Hin as [Hin | Hin]; [discriminate |]).
  by apply elem_of_nil in Hin.
Qed.

(** Two backups whose parts can be listed: one delete call with the two
    data parts and the sentinel of each. *)
Lemma DeleteBackups_one_batch_or_none_witness :
  let run :=
    DeleteBackups Fixture.store Fixture.purger
      [Fixture.backup_named "monday"; Fixture.backup_named "tuesday"]
      Fixture.pstart in
  run.1 = None /\
  ptrace run.2 =
    [EvGetTarNames (NewBackup "basebackups_005" "monday");
     EvGetTarNames (NewBackup "basebackups_005" "tuesday");
     EvDeleteObjects "basebackups_005"
       ["monday/tar_partitions/part_1.tar.br";
        "monday/tar_partitions/part_2.tar.br";
        "monday_backup_stop_sentinel.json";
        "tuesday/tar_partitions/part_1.tar.br";
        "tuesday/tar_partitions/part_2.tar.br";
        "tuesday_backup_stop_sentinel.json"]].
Proof.
  destruct (DeleteBackups_one_batch_or_none Fixture.store Fixture.purger
              [Fixture.backup_named "monday"; Fixture.backup_named "tuesday"]
              Fixture.pstart) as [Hok _].
  cbv zeta. rewrite (Hok None Fixture.empty_world).
  - split; reflexivity.
  - repeat constructor.
  - reflexivity.
Defined.

(** ** File-restore dispatcher *)

Section UnwrapperFacts.
Context {World Header File ReadWriterAt : Type}.
Variable r : @Restorers World Header File ReadWriterAt.

Local Abbreviation FSt := (@FState World Header File ReadWriterAt).

Lemma finvoke_eq {A} ev (f : World -> A * World) (s : FSt) a w :
  f (fworld s) = (a, w) ->
  finvoke ev f s = (a, mkFState w (ftrace s ++ [ev])).
Proof. intros Hf. unfold finvoke. by rewrite Hf. Qed.

Lemma calls_since_app (s : FSt) w evs :
  calls_since s (mkFState w (ftrace s ++ evs)) = evs.
Proof. unfold calls_since. simpl. apply drop_app_length. Qed.

(** C6, as amended.  The dispatch table.  A new file: in incremental
    mode a random-access target is built and the file is synthesized from
    the increment stream; otherwise the stream is written verbatim.  An
    existing file: a random-access target is built first, and if that
    fails its error is returned in every mode; once it is built, in
    incremental mode the file is patched from the increment stream, a
    page file in non-incremental mode has its missing pages restored, and
    a plain file in non-incremental mode is skipped: success, and no
    further call. *)
Theorem Unwrap_dispatch_table (u : DefaultFileUnwrapper) reader header file (s : FSt) :
  let opts := options (base u) in
  let new := UnwrapNewFile r u reader header file s in
  let existing := UnwrapExistingFile r u reader header file s in
  (forall target w1 err w2,
      isIncremented opts = true ->
      NewReadWriterAtFrom r file (fworld s) = (target, None, w1) ->
      CreateFileFromIncrement r reader target w1 = (err, w2) ->
      new = (Wrapf err ("Interpret: failed to create file from increment '"
                          +:+ File_Name r file +:+ "'"),
             mkFState w2
               (ftrace s ++ [EvNewReadWriterAtFrom file;
                             EvCreateFileFromIncrement reader target])))
  /\ (forall err w1,
      isIncremented opts = false ->
      writeLocalFile r opts reader header file (fworld s) = (err, w1) ->
      new = (err, mkFState w1 (ftrace s ++ [EvWriteLocalFile reader header file])))
  /\ (forall target w1 err w2,
      isIncremented opts = true ->
      NewReadWriterAtFrom r file (fworld s) = (target, None, w1) ->
      WritePagesFromIncrement r reader target false w1 = (err, w2) ->
      existing = (Wrapf err ("Interpret: failed to write increment to file '"
                               +:+ File_Name r file +:+ "'"),
                  mkFState w2
                    (ftrace s ++ [EvNewReadWriterAtFrom file;
                                  EvWritePagesFromIncrement reader target false])))
  /\ (forall target w1 err w2,
      isIncremented opts = false -> isPageFile opts = true ->
      NewReadWriterAtFrom r file (fworld s) = (target, None, w1) ->
      RestoreMissingPages r reader target w1 = (err, w2) ->
      existing = (Wrapf err ("Interpret: failed to restore pages for file '"
                               +:+ File_Name r file +:+ "'"),
                  mkFState w2
                    (ftrace s ++ [EvNewReadWriterAtFrom file;
                                  EvRestoreMissingPages reader target])))
  /\ (forall target w1,
      isIncremented opts = false -> isPageFile opts = false ->
      NewReadWriterAtFrom r file (fworld s) = (target, None, w1) ->
      existing = (None, mkFState w1 (ftrace s ++ [EvNewReadWriterAtFrom file])))
  /\ (forall target err w1,
      NewReadWriterAtFrom r file (fworld s) = (target, Some err, w1) ->
      existing = (Some err, mkFState w1 (ftrace s ++ [EvNewReadWriterAtFrom file])))
  /\ (forall target err w1,
      isIncremented opts = true ->
      NewReadWriterAtFrom r file (fworld s) = (target, Some err, w1) ->
      new = (Some err, mkFState w1 (ftrace s ++ [EvNewReadWriterAtFrom file]))).
Proof.
  intros opts new existing. subst opts new existing.
  unfold UnwrapNewFile, UnwrapExistingFile, bind, ret.
  split; [| split; [| split; [| split; [| split; [| split]]]]].
  - intros target w1 err w2 -> Hnew Hcreate.
    rewrite (finvoke_eq _ _ _ _ _ Hnew). simpl.
    rewrite (finvoke_eq _ _ (mkFState w1 _) _ _ Hcreate). simpl.
    by rewrite <- app_assoc.
  - intros err w1 -> Hwrite. by rewrite (finvoke_eq _ _ _ _ _ Hwrite).
  - intros target w1 err w2 -> Hnew Hpatch.
    rewrite (finvoke_eq _ _ _ _ _ Hnew). simpl.
    rewrite (finvoke_eq _ _ (mkFState w1 _) _ _ Hpatch). simpl.
    by rewrite <- app_assoc.
  - intros target w1 err w2 -> -> Hnew Hpages.
    rewrite (finvoke_eq _ _ _ _ _ Hnew). simpl.
    rewrite (finvoke_eq _ _ (mkFState w1 _) _ _ Hpages). simpl.
    by rewrite <- app_assoc.
  - intros target w1 -> -> Hnew. by rewrite (finvoke_eq _ _ _ _ _ Hnew).
  - intros target err w1 Hnew. by rewrite (finvoke_eq _ _ _ _ _ Hnew).
  - intros target err w1 -> Hnew. by rewrite (finvoke_eq _ _ _ _ _ Hnew).
Qed.

(** C10. For an existing file in incremental mode the page-file flag is
    not consulted: two unwrappers that are both incremental behave alike
    whatever their page-file flags, the call runs the increment-patch
    path (build the target and, unless that fails,
    [WritePagesFromIncrement] without overwriting), and it makes no
    [RestoreMissingPages] call.  Whenever
    [UnwrapExistingFile] does make a [RestoreMissingPages] call,
    [isIncremented] is false. *)
Theorem incremental_takes_precedence
    (u u' : DefaultFileUnwrapper) reader header file (s : FSt) :
  isIncremented (options (base u)) = true ->
  let run := UnwrapExistingFile r u reader header file s in
  (isIncremented (options (base u')) = true ->
     UnwrapExistingFile r u' reader header file s = run)
  /\ (forall target targetErr w1 err w2,
      NewReadWriterAtFrom r file (fworld s) = (target, targetErr, w1) ->
      WritePagesFromIncrement r reader target false w1 = (err, w2) ->
      run = match targetErr with
            | Some e =>
                (Some e, mkFState w1 (ftrace s ++ [EvNewReadWriterAtFrom file]))
            | None =>
                (Wrapf err ("Interpret: failed to write increment to file '"
                              +:+ File_Name r file +:+ "'"),
                 mkFState w2
                   (ftrace s ++ [EvNewReadWriterAtFrom file;
                                 EvWritePagesFromIncrement reader target false]))
            end)
  /\ (forall rd target, EvRestoreMissingPages rd target ∉ calls_since s run.2)
  /\ (forall rd target,
      EvRestoreMissingPages rd target ∈
        calls_since s (UnwrapExistingFile r u' reader header file s).2 ->
      isIncremented (options (base u')) = false).
Proof.
  intros Hinc run. subst run.
  unfold UnwrapExistingFile, bind, ret. rewrite Hinc.
  destruct (NewReadWriterAtFrom r file (fworld s)) as [[target0 e0] w0] eqn:Hnew.
  rewrite (finvoke_eq _ _ _ _ _ Hnew). simpl.
  split; [| split; [| split]].
  - intros ->. reflexivity.
  - intros target targetErr w1 err w2 [= -> -> ->] Hpatch.
    destruct targetErr as [e |]; [reflexivity |].
    rewrite (finvoke_eq _ _ (mkFState w1 _) _ _ Hpatch). simpl.
    by rewrite <- app_assoc.
  - intros rd target Hin. destruct e0 as [e |]; simpl in Hin.
    + rewrite calls_since_app in Hin.
      apply elem_of_cons in Hin as [Hin | Hin]; [discriminate |].
      by apply elem_of_nil in Hin.
    + destruct (WritePagesFromIncrement r reader target0 false w0) as [e w2] eqn:Hp.
      rewrite (finvoke_eq _ _ (mkFState w0 _) _ _ Hp) in Hin. simpl in Hin.
      rewrite <- app_assoc, calls_since_app in Hin. simpl in Hin.
      repeat (apply elem_of_cons in Hin as [Hin | Hin]; [discriminate |]).
      by apply elem_of_nil in Hin.
  - intros rd target Hin.
    destruct (isIncremented (options (base u'))) eqn:Hinc'; [| reflexivity].
    exfalso. destruct e0 as [e |]; simpl in Hin.
    + rewrite calls_since_app in Hin.
      apply elem_of_cons in Hin as [Hin | Hin]; [discriminate |].
      by apply elem_of_nil in Hin.
    + destruct (WritePagesFromIncrement r reader target0 false w0) as [e w2] eqn:Hp.
      rewrite (finvoke_eq _ _ (mkFState w0 _) _ _ Hp) in Hin. simpl in Hin.
      rewrite <- app_assoc, calls_since_app in Hin. simpl in Hin.
      repeat (apply elem_of_cons in Hin as [Hin | Hin]; [discriminate |]).
      by apply elem_of_nil in Hin.
Qed.

End UnwrapperFacts.

(** An existing plain file, non-incremental mode, but the file is already
    closed: the call does not return success. *)
Lemma UnwrapExistingFile_plain_file_error :
  let run :=
    UnwrapExistingFile Fixture.restorers (Fixture.unwrapper false false)
      Fixture.increment tt ("base/1", false) Fixture.fstart in
  run.1 = Some (Errorf "stat base/1: file already closed") /\
  run.1 <> None /\
  ftrace run.2 = [EvNewReadWriterAtFrom ("base/1", false)].
Proof. vm_compute. repeat split. discriminate. Qed.

(** The same plain file while open is skipped, and in incremental mode it
    is patched. *)
Lemma Unwrap_dispatch_table_witness :
  UnwrapExistingFile Fixture.restorers (Fixture.unwrapper false false)
    Fixture.increment tt ("base/1", true) Fixture.fstart =
    (None, mkFState tt [EvNewReadWriterAtFrom ("base/1", true)]) /\
  UnwrapExistingFile Fixture.restorers (Fixture.unwrapper true false)
    Fixture.increment tt ("base/1", true) Fixture.fstart =
    (None,
     mkFState tt
       [EvNewReadWriterAtFrom ("base/1", true);
        EvWritePagesFromIncrement Fixture.increment (Some "base/1") false]) /\
  UnwrapNewFile Fixture.restorers (Fixture.unwrapper false false)
    Fixture.increment tt ("base/2", true) Fixture.fstart =
    (None,
     mkFState tt [EvWriteLocalFile Fixture.increment tt ("base/2", true)]).
Proof.
  split; [| split].
  - destruct (Unwrap_dispatch_table Fixture.restorers (Fixture.unwrapper false false)
                Fixture.increment tt ("base/1", true) Fixture.fstart)
      as (_ & _ & _ & _ & Hskip & _).
    apply (Hskip (Some "base/1") tt); reflexivity.
  - destruct (Unwrap_dispatch_table Fixture.restorers (Fixture.unwrapper true false)
                Fixture.increment tt ("base/1", true) Fixture.fstart)
      as (_ & _ & Hpatch & _).
    apply (Hpatch (Some "base/1") tt None tt); reflexivity.
  - destruct (Unwrap_dispatch_table Fixture.restorers (Fixture.unwrapper false false)
                Fixture.increment tt ("base/2", true) Fixture.fstart)
      as (_ & Hwrite & _).
    apply (Hwrite None tt); reflexivity.
Defined.

(** A page file and a plain file, both restored incrementally, are
    patched alike. *)
Lemma incremental_takes_precedence_witness :
  UnwrapExistingFile Fixture.restorers (Fixture.unwrapper true false)
    Fixture.increment tt ("base/1", true) Fixture.fstart =
  UnwrapExistingFile Fixture.restorers (Fixture.unwrapper true true)
    Fixture.increment tt ("base/1", true) Fixture.fstart.
Proof.
  destruct (incremental_takes_precedence Fixture.restorers
              (Fixture.unwrapper true true) (Fixture.unwrapper true false)
              Fixture.increment tt ("base/1", true) Fixture.fstart eq_refl)
    as (Hsame & _).
  exact (Hsame eq_refl).
Defined.

(** * Further properties of the code *)

(** ** [strings.HasSuffix] *)

Section StringFacts.

Lemma string_length_app (p s : string) :
  String.length (p +:+ s) = String.length p + String.length s.
Proof. induction p as [| c p IH]; simpl; [reflexivity | by rewrite IH]. Qed.

Lemma substring_all (s : string) : String.substring 0 (String.length s) s = s.
Proof. induction s as [| c s IH]; simpl; [reflexivity | by rewrite IH]. Qed.

Lemma substring_app_skip (p s : string) (n : nat) :
  String.substring (String.length p) n (p +:+ s) = String.substring 0 n s.
Proof. induction p as [| c p IH]; simpl; [reflexivity | exact IH]. Qed.

Lemma substring_split (s : string) (k : nat) :
  k <= String.length s ->
  s = String.substring 0 k s +:+ String.substring k (String.length s - k) s.
Proof.
  revert k. induction s as [| c s IH]; intros k Hk; simpl in *.
  - by destruct k.
  - destruct k as [| k]; simpl.
    + by rewrite substring_all.
    + change (String c s =
              String c (String.substring 0 k s
                          +:+ String.substring k (String.length s - k) s)).
      f_equal. apply IH. lia.
Qed.


(** [strings.HasSuffix] holds exactly of the strings that end in the suffix. *)
Lemma strings_HasSuffix_spec (s suffix : string) :
  strings_HasSuffix s suffix = true <-> exists p, s = p +:+ suffix.
Proof.
  unfold strings_HasSuffix. rewrite andb_true_iff, Nat.leb_le, String.eqb_eq.
  split.
  - intros [Hle Hsub].
    exists (String.substring 0 (String.length s - String.length suffix) s).
    pose proof (substring_split s (String.length s - String.length suffix)
                  ltac:(lia)) as Hs.
    replace (String.length s - (String.length s - String.length suffix))
      with (String.length suffix) in Hs by lia.
    rewrite Hsub in Hs. exact Hs.
  - intros [p ->]. rewrite string_length_app. split; [lia |].
    replace (String.length p + String.length suffix - String.length suffix)
      with (String.length p) by lia.
    rewrite substring_app_skip. apply substring_all.
Qed.

End StringFacts.

(** ** More on the Downloader *)

Section DownloaderMore.
Variable FetchStreamSentinel : BackupHandle Folder -> Backup -> Backup * option error.
Variable sort_Slice : sorter.
Variable codec : Codec.
Variable utility : Utility.

(** X1. [BackupMeta] hands out the sentinel as fetched, except that a
    sentinel without a name gets the lookup name; when the fetch fails it
    hands out the zero [Backup] and an error that wraps the fetch error. *)
Theorem BackupMeta_fills_in_name sd name fetched fetchErr :
  FetchStreamSentinel (NewBackup (backupsFolder sd) name) zeroBackup =
    (fetched, fetchErr) ->
  let result := BackupMeta FetchStreamSentinel sd name in
  match fetchErr with
  | Some e =>
      result = (zeroBackup, Some (Errorf_w "can not fetch stream sentinel: " e ""))
      /\ Unwrap (Errorf_w "can not fetch stream sentinel: " e "") = Some e
  | None =>
      result.2 = None
      /\ BackupName result.1 =
           (if String.eqb (BackupName fetched) "" then name else BackupName fetched)
      /\ StartLocalTime result.1 = StartLocalTime fetched
      /\ FinishLocalTime result.1 = FinishLocalTime fetched
      /\ UserData result.1 = UserData fetched
      /\ MongoMeta result.1 = MongoMeta fetched
      /\ (name <> "" -> BackupName result.1 <> "")
  end.
Proof.
  intros Hfetch result. subst result. unfold BackupMeta. rewrite Hfetch.
  destruct fetchErr as [e |]; [by split |].
  destruct (String.eqb_spec (BackupName fetched) "") as [Hempty | Hname];
    simpl; repeat split; auto.
Qed.

Lemma resolved_has_name sd name :
  name <> "" -> resolves FetchStreamSentinel sd name ->
  BackupName (resolved FetchStreamSentinel sd name) <> "".
Proof.
  intros Hname Hres. unfold resolves, resolved, BackupMeta in *.
  destruct (FetchStreamSentinel (NewBackup (backupsFolder sd) name) zeroBackup)
    as [fetched [e |]]; [discriminate |].
  destruct (String.eqb_spec (BackupName fetched) "") as [Hempty | Hfetched];
    simpl; assumption.
Qed.

Lemma LoadBackups_resolved sd names :
  Forall (resolves FetchStreamSentinel sd) names ->
  LoadBackups FetchStreamSentinel sort_Slice sd names =
    (Slice (sort_Slice Backup
              (fun bi bj => After (FinishLocalTime bi) (FinishLocalTime bj))
              (map (resolved FetchStreamSentinel sd) names)),
     None).
Proof.
  intros Hall. unfold LoadBackups.
  by rewrite (LoadBackups_loop_resolved FetchStreamSentinel sd names [] Hall).
Qed.

(** X2. Every backup that [LoadBackups] returns carries a name, as long
    as the names asked for are not empty: the sentinel's own name or, for a
    sentinel without one, the name it was looked up by.  For no names at
    all the result is an allocated empty slice, not nil. *)
Theorem LoadBackups_backups_are_named sd names :
  sorter_ok sort_Slice ->
  Forall (resolves FetchStreamSentinel sd) names ->
  exists backups,
    LoadBackups FetchStreamSentinel sort_Slice sd names = (Slice backups, None) /\
    (Forall (fun name => name <> "") names ->
       Forall (fun b => BackupName b <> "") backups) /\
    (names = [] -> backups = []).
Proof.
  intros [Hperm _] Hall. rewrite (LoadBackups_resolved sd names Hall).
  eexists. split; [reflexivity |]. split.
  - intros Hnames. rewrite Hperm. rewrite Forall_forall.
    intros b Hb. apply list_elem_of_fmap in Hb as (name & -> & Hin).
    rewrite Forall_forall in Hnames, Hall.
    apply resolved_has_name; auto.
  - intros ->. simpl. apply Permutation_nil_r. apply Hperm.
Qed.

(** X3. The finish times [LoadBackups] returns do not depend on the order
    in which the names are given: two calls with the same names in any two
    orders return the same sequence of finish times. *)
Theorem LoadBackups_finish_times_order_independent sd names names' :
  sorter_ok sort_Slice ->
  names ≡ₚ names' ->
  Forall (resolves FetchStreamSentinel sd) names ->
  exists backups backups',
    LoadBackups FetchStreamSentinel sort_Slice sd names = (Slice backups, None) /\
    LoadBackups FetchStreamSentinel sort_Slice sd names' = (Slice backups', None) /\
    map FinishLocalTime backups = map FinishLocalTime backups'.
Proof.
  intros [Hperm Hsorted] Hnames Hall.
  assert (Hall' : Forall (resolves FetchStreamSentinel sd) names')
    by (by rewrite <- Hnames).
  rewrite (LoadBackups_resolved sd names Hall), (LoadBackups_resolved sd names' Hall').
  do 2 eexists. split; [reflexivity |]. split; [reflexivity |].
  apply (StronglySorted_unique_strong (fun a b : Z => (b <= a)%Z)).
  - intros x1 x2 _ _ H1 H2. lia.
  - apply (StronglySorted_fmap FinishLocalTime
             (fun a b => After (FinishLocalTime b) (FinishLocalTime a) = false)).
    + intros a b Hab. unfold After in Hab. by apply Z.ltb_ge in Hab.
    + apply (Hsorted Backup), After_FinishLocalTime_swo.
  - apply (StronglySorted_fmap FinishLocalTime
             (fun a b => After (FinishLocalTime b) (FinishLocalTime a) = false)).
    + intros a b Hab. unfold After in Hab. by apply Z.ltb_ge in Hab.
    + apply (Hsorted Backup), After_FinishLocalTime_swo.
  - apply fmap_Permutation. rewrite !Hperm. by apply fmap_Permutation.
Qed.

Lemma ListBackupNames_loop_filter objects sortTimes :
  ListBackupNames_loop utility objects sortTimes =
    sortTimes ++ map (backup_time_of utility)
                   (List.filter (is_sentinel_key utility) objects).
Proof.
  revert sortTimes. induction objects as [| o objects IH]; intros sortTimes; simpl.
  - by rewrite app_nil_r.
  - unfold is_sentinel_key at 1.
    destruct (strings_HasSuffix (GetName o) (SentinelSuffix utility)); simpl.
    + rewrite IH. by rewrite <- app_assoc.
    + apply IH.
Qed.

Lemma BT_Time_swo :
  strict_weak_order (fun ti tj : BackupTime => After (BT_Time ti) (BT_Time tj)).
Proof.
  unfold After. split.
  - intros a. apply Z.ltb_irrefl.
  - intros a b c. rewrite !Z.ltb_lt. lia.
  - intros a b c. rewrite !Z.ltb_ge. lia.
Qed.

(** X4. [ListBackupNames] returns one entry for each listed object whose
    key ends in the sentinel suffix and none for any other object, each
    with the object's modification time and the names cut from its key,
    sorted by modification time, latest first.  When the folder cannot be
    listed it returns the nil slice and the listing error as it is. *)
Theorem ListBackupNames_sentinels_latest_first sd objects subs err :
  sorter_ok sort_Slice ->
  ListFolder (backupsFolder sd) = (objects, subs, err) ->
  match err with
  | Some e => ListBackupNames sort_Slice utility sd = (nil_slice, Some e)
  | None =>
      exists entries,
        ListBackupNames sort_Slice utility sd = (Slice entries, None) /\
        entries ≡ₚ map (backup_time_of utility)
                     (List.filter (is_sentinel_key utility) objects) /\
        StronglySorted (fun a b => (BT_Time b <= BT_Time a)%Z) entries /\
        Forall (fun entry =>
                  exists o p,
                    o ∈ objects /\
                    GetName o = p +:+ SentinelSuffix utility /\
                    entry = {| BT_BackupName := StripBackupName utility (GetName o);
                               BT_Time := GetLastModified o;
                               BT_WalFileName := StripWalFileName utility (GetName o) |})
               entries
  end.
Proof.
  intros [Hperm Hsorted] Hlist. unfold ListBackupNames. rewrite Hlist.
  destruct err as [e |]; [reflexivity |].
  rewrite ListBackupNames_loop_filter. simpl.
  eexists. split; [reflexivity |]. split; [apply Hperm |]. split.
  - eapply StronglySorted_weaken; [| apply Hsorted, BT_Time_swo].
    intros a b Hab. unfold After in Hab. by apply Z.ltb_ge in Hab.
  - rewrite Hperm. rewrite Forall_forall. intros entry Hin.
    apply list_elem_of_fmap in Hin as (o & -> & Ho).
    apply list_elem_of_In, filter_In in Ho as [Ho Hkey].
    apply strings_HasSuffix_spec in Hkey as [p Hp].
    exists o, p. split; [by apply list_elem_of_In | by split].
Qed.

End DownloaderMore.

Section OplogListingMore.
Variable codec : Codec.

Lemma LastKnownArchiveTS_loop_first_failure good key rest err maxTS :
  Forall (decodes codec) good ->
  (ArchFromFilename codec (GetName key)).2 = Some err ->
  LastKnownArchiveTS_loop codec (good ++ key :: rest) maxTS =
    (zeroTS,
     Some (Errorf_w
       ("can not build archive since filename '" +:+ GetName key +:+ "': ")
       err "")).
Proof.
  intros Hgood Hkey. revert maxTS.
  induction Hgood as [| o good Ho _ IH]; intros maxTS; simpl.
  - destruct (ArchFromFilename codec (GetName key)) as [arch e].
    simpl in Hkey. by subst e.
  - unfold decodes in Ho.
    destruct (ArchFromFilename codec (GetName o)) as [arch e].
    simpl in Ho. subst e. apply IH.
Qed.

Lemma foldl_MaxTS_map_End objects maxTS :
  foldl (fun m o => MaxTS m (End (decoded codec o))) maxTS objects =
    foldl MaxTS maxTS (map End (map (decoded codec) objects)).
Proof.
  revert maxTS. induction objects as [| o objects IH]; intros maxTS; simpl;
    [reflexivity | apply IH].
Qed.

(** X5. [LastKnownArchiveTS] gives no partial answer: as soon as one
    listed key does not decode it returns the zero timestamp, not the
    maximum of the keys before it, and an error that names that key and
    wraps its decoding error. *)
Theorem LastKnownArchiveTS_no_partial_maximum sd objects subs :
  ListFolder (oplogsFolder sd) = (objects, subs, None) ->
  Exists (fun o => ~ decodes codec o) objects ->
  exists good key rest err,
    objects = good ++ key :: rest /\ Forall (decodes codec) good /\
    (ArchFromFilename codec (GetName key)).2 = Some err /\
    LastKnownArchiveTS codec sd =
      (zeroTS,
       Some (Errorf_w
         ("can not build archive since filename '" +:+ GetName key +:+ "': ")
         err "")).
Proof.
  intros Hlist Hex. unfold LastKnownArchiveTS. rewrite Hlist.
  destruct (first_undecodable codec objects Hex)
    as (good & key & rest & err & -> & Hgood & Herr).
  exists good, key, rest, err. repeat split; auto.
  by apply LastKnownArchiveTS_loop_first_failure.
Qed.

(** X6. [LastKnownArchiveTS] and [ListOplogArchives] agree on every
    folder: one fails exactly when the other does, and when they succeed
    the timestamp is the [MaxTS] fold over the [End] of the archives that
    [ListOplogArchives] returns. *)
Theorem LastKnownArchiveTS_agrees_with_ListOplogArchives sd :
  ((ListOplogArchives codec sd).2 = None <-> (LastKnownArchiveTS codec sd).2 = None)
  /\ (forall archives,
        ListOplogArchives codec sd = (Slice archives, None) ->
        LastKnownArchiveTS codec sd =
          (foldl MaxTS zeroTS (map End archives), None)).
Proof.
  unfold ListOplogArchives, LastKnownArchiveTS.
  destruct (ListFolder (oplogsFolder sd)) as [[objects subs] [e |]].
  - split; [split; discriminate | discriminate].
  - destruct (Forall_Exists_dec (decodes codec) (fun o => ~ decodes codec o)
                (decodes_dec codec) objects) as [Hall | Hex].
    + rewrite (ListOplogArchives_loop_decoded codec objects [] Hall).
      rewrite (LastKnownArchiveTS_loop_decoded codec objects zeroTS Hall).
      split; [by split |].
      intros archives [= <-]. simpl. by rewrite foldl_MaxTS_map_End.
    + destruct (first_undecodable codec objects Hex)
        as (good & key & rest & err & -> & Hgood & Herr).
      rewrite (ListOplogArchives_loop_first_failure codec good key rest err []
                 Hgood Herr).
      rewrite (LastKnownArchiveTS_loop_first_failure good key rest err zeroTS
                 Hgood Herr).
      split; [split; discriminate | discriminate].
Qed.

(** X7. Listing more archives never moves [LastKnownArchiveTS] back, and
    archives whose [End] is not beyond the [End] of an archive that stays
    do not matter: removing them from the store leaves the answer as it
    was. *)
Theorem LastKnownArchiveTS_monotone sd sd' objects objects' subs subs' :
  ListFolder (oplogsFolder sd) = (objects, subs, None) ->
  ListFolder (oplogsFolder sd') = (objects', subs', None) ->
  objects ⊆ objects' ->
  Forall (decodes codec) objects' ->
  exists m m',
    LastKnownArchiveTS codec sd = (m, None) /\
    LastKnownArchiveTS codec sd' = (m', None) /\
    LeTS m m' /\
    ((forall o', o' ∈ objects' ->
        exists o, o ∈ objects /\ LeTS (End (decoded codec o')) (End (decoded codec o))) ->
     m = m').
Proof.
  intros Hlist Hlist' Hsub Hall'.
  assert (Hall : Forall (decodes codec) objects).
  { rewrite Forall_forall in Hall' |- *. intros o Ho. by apply Hall', Hsub. }
  unfold LastKnownArchiveTS. rewrite Hlist, Hlist'.
  rewrite !LastKnownArchiveTS_loop_decoded by assumption.
  destruct (foldl_MaxTS_is_max codec objects) as (Hup & Hnil & Hex).
  destruct (foldl_MaxTS_is_max codec objects') as (Hup' & Hnil' & Hex').
  set (m := foldl _ zeroTS objects) in *.
  set (m' := foldl _ zeroTS objects') in *.
  assert (Hle : LeTS m m').
  { destruct objects as [| o objects].
    - rewrite Hnil by reflexivity. apply LeTS_zero.
    - specialize (Hex ltac:(discriminate)).
      apply Exists_exists in Hex as (a & Ha & ->).
      rewrite Forall_forall in Hup'. by apply Hup', Hsub. }
  exists m, m'. repeat split; auto.
  intros Hdom. apply LeTS_antisym; [exact Hle |].
  destruct objects' as [| o' objects'].
  - rewrite Hnil' by reflexivity. apply LeTS_zero.
  - specialize (Hex' ltac:(discriminate)).
    apply Exists_exists in Hex' as (a & Ha & ->).
    destruct (Hdom a Ha) as (o & Ho & Hao).
    eapply LeTS_trans; [exact Hao |].
    rewrite Forall_forall in Hup. by apply Hup.
Qed.

End OplogListingMore.

(** ** More on the Uploaders *)

Section UploaderMore.
Context {World Compressor Crypter : Type}.
Variable codec : Codec.
Variable internal : @Internals World Compressor Crypter.

Local Abbreviation St := (UState World).

(** X8. The discard Uploader's [UploadOplogArchive] hands the stream,
    compressed and encrypted when a compressor is set and as it is
    otherwise, to its [io.ReaderFrom] and returns that call's error; it
    makes no other call and leaves the buffer alone.  Without an
    [io.ReaderFrom] it returns nil and does nothing.  The timestamps play
    no part. *)
Theorem Discard_UploadOplogArchive_reads_and_drops
    (d : @DiscardUploader World Compressor) archReader firstTS lastTS (s : St) :
  let payload :=
    match compressor d with
    | Some c => CompressAndEncrypt internal archReader c (ConfigureCrypter internal)
    | None => archReader
    end in
  let run := Discard_UploadOplogArchive internal d archReader firstTS lastTS s in
  match readerFrom d with
  | None => run = (None, s)
  | Some rf =>
      forall n err w',
        ReadFrom rf payload (world s) = (n, err, w') ->
        run = (err, mkUState w' (trace s ++ [EvReadFrom payload]) (buf s))
  end.
Proof.
  intros payload run. subst run. unfold Discard_UploadOplogArchive.
  fold payload. destruct (readerFrom d) as [rf |]; [| reflexivity].
  intros n err w' Hread. unfold bind, ret.
  rewrite (invoke_eq _ _ _ _ _ Hread). by destruct err.
Qed.

(** X9. What the store-backed [UploadOplogArchive] returns and uploads.
    If the archive cannot be built: the wrapped error, and nothing else
    happens.  If reading the compressed and encrypted stream fails: that
    error, no upload, buffer cleared.  Otherwise: exactly one [Upload],
    under the archive's file name, of the buffer followed by the bytes
    read, and the result of that [Upload] as it is, buffer cleared. *)
Theorem UploadOplogArchive_outcomes
    (su : StorageUploader) stream firstTS lastTS (s : St) arch archErr :
  NewArchive codec firstTS lastTS
    (FileExtension internal (Compression (provider su))) ArchiveTypeOplog =
    (arch, archErr) ->
  let payload :=
    CompressAndEncrypt internal stream (Compression (provider su)) (crypter su) in
  let content := bytes_NewReader (buf s ++ rdata payload) in
  let run := UploadOplogArchive codec internal su stream firstTS lastTS s in
  match archErr, rerr payload with
  | Some e, _ => run = (Some (Errorf_w "can not build archive: " e ""), s)
  | None, Some e => run = (Some e, mkUState (world s) (trace s) [])
  | None, None =>
      forall uploadErr w',
        Upload (provider su) (Filename codec arch) content (world s) =
          (uploadErr, w') ->
        run = (uploadErr,
               mkUState w' (trace s ++ [EvUpload (Filename codec arch) content]) [])
  end.
Proof.
  intros Hnew payload content run. subst run. unfold UploadOplogArchive.
  rewrite Hnew. destruct archErr as [e |]; [reflexivity |].
  unfold bind, buf_ReadFrom, buf_Bytes, buf_Reset, ret. simpl.
  fold payload. destruct (rerr payload) as [e |]; [reflexivity |].
  intros uploadErr w' Hup. unfold invoke. cbn [world trace buf].
  fold content. by rewrite Hup.
Qed.

(** X10. [UploadBackup] returns nil only after all eight calls, the
    sentinel write last.  The sentinel it writes has no [BackupName] and
    starts at the first clock reading; read back through [BackupMeta], it
    is reported under the name it was looked up by. *)
Theorem UploadBackup_success_writes_sentinel
    (su : StorageUploader) stream (cmd : ErrWaiter)
    (metaProvider : MongoMetaProvider) (s : St) :
  let run := UploadBackup internal su stream cmd metaProvider s in
  run.1 = None ->
  exists sentinel backupName,
    ucalls_since s run.2 =
      [EvTimeNow; EvPushStream stream; EvFinalize; EvWait; EvTimeNow;
       EvGetSentinelUserData; EvMeta; EvUploadSentinel sentinel backupName]
    /\ BackupName sentinel = ""
    /\ StartLocalTime sentinel = (TimeNowCrossPlatformLocal internal (world s)).1
    /\ forall FetchStreamSentinel sd name,
         FetchStreamSentinel (NewBackup (backupsFolder sd) name) zeroBackup =
           (sentinel, None) ->
         BackupMeta FetchStreamSentinel sd name =
           (set_BackupName sentinel name, None).
Proof.
  intros run Hnil. subst run.
  unfold UploadBackup, bind, ret, invoke, ucalls_since in *.
  destruct (TimeNowCrossPlatformLocal internal (world s)) as [timeStart w1].
  simpl in *.
  destruct (PushStream (provider su) stream w1) as [[backupName [e |]] w2];
    simpl in *; [discriminate |].
  destruct (Finalize metaProvider w2) as [[e |] w3]; simpl in *; [discriminate |].
  destruct (Wait cmd w3) as [[e |] w4]; simpl in *; [discriminate |].
  destruct (TimeNowCrossPlatformLocal internal w4) as [finish w5]. simpl in *.
  destruct (GetSentinelUserData internal w5) as [userData w6]. simpl in *.
  destruct (Meta metaProvider w6) as [meta w7]. simpl in *.
  destruct (UploadSentinel internal (provider su) _ backupName w7) as [err w8].
  simpl in *. subst err.
  do 2 eexists. split.
  - rewrite <- !app_assoc. apply drop_app_length.
  - repeat split. intros Fetch sd name Hfetch.
    unfold BackupMeta. by rewrite Hfetch.
Qed.



End UploaderMore.

(** ** More on the Purger *)

Section PurgerMore.
Context {World FolderRef : Type}.
Variable codec : Codec.
Variable store : @Store World FolderRef.

Local Abbreviation PSt := (@PState World FolderRef).

(** X12. Purging the archives that [ListOplogArchives] returned deletes
    exactly the keys that were listed, in one [DeleteObjects] call on the
    oplog folder and with no listing of its own, provided that the file
    name of each decoded archive is the key it was decoded from. *)
Theorem purge_of_listed_archives sd sp objects subs archives (s : PSt) delErr w' :
  ListFolder (oplogsFolder sd) = (objects, subs, None) ->
  ListOplogArchives codec sd = (Slice archives, None) ->
  (forall o, o ∈ objects -> Filename codec (decoded codec o) = GetName o) ->
  DeleteObjects store (p_oplogsFolder sp) (map GetName objects) (pworld s) =
    (delErr, w') ->
  DeleteOplogArchives codec store sp archives s =
    (delErr,
     mkPState w'
       (ptrace s ++ [EvDeleteObjects (p_oplogsFolder sp) (map GetName objects)])).
Proof.
  intros Hlist Harch Hround Hdel.
  assert (Hkeys : map (Filename codec) archives = map GetName objects).
  { unfold ListOplogArchives in Harch. rewrite Hlist in Harch.
    destruct (Forall_Exists_dec (decodes codec) (fun o => ~ decodes codec o)
                (decodes_dec codec) objects) as [Hall | Hex].
    - rewrite (ListOplogArchives_loop_decoded codec objects [] Hall) in Harch.
      injection Harch as <-. simpl. rewrite map_map.
      apply map_ext_in. intros o Ho. apply Hround. by apply list_elem_of_In.
    - destruct (first_undecodable codec objects Hex)
        as (good & key & rest & err & -> & Hgood & Herr).
      rewrite (ListOplogArchives_loop_first_failure codec good key rest err []
                 Hgood Herr) in Harch.
      discriminate. }
  unfold DeleteOplogArchives, pinvoke. by rewrite Hkeys, Hdel.
Qed.

(** X13. Neither purge method returns early on an empty list: each still
    makes its one [DeleteObjects] call, with no keys, on its own folder,
    and [DeleteBackups] lists nothing for it. *)
Theorem purge_of_nothing_still_calls_the_store sp (s : PSt) :
  (forall delErr w',
      DeleteObjects store (p_backupsFolder sp) [] (pworld s) = (delErr, w') ->
      DeleteBackups store sp [] s =
        (delErr, mkPState w' (ptrace s ++ [EvDeleteObjects (p_backupsFolder sp) []])))
  /\ (forall delErr w',
      DeleteObjects store (p_oplogsFolder sp) [] (pworld s) = (delErr, w') ->
      DeleteOplogArchives codec store sp [] s =
        (delErr, mkPState w' (ptrace s ++ [EvDeleteObjects (p_oplogsFolder sp) []]))).
Proof.
  split; intros delErr w' Hdel.
  - unfold DeleteBackups, bind, ret, pinvoke. simpl. rewrite Hdel.
    by destruct delErr.
  - unfold DeleteOplogArchives, pinvoke. simpl. by rewrite Hdel.
Qed.

End PurgerMore.

(** ** More on the file-restore dispatcher *)

Section UnwrapperMore.
Context {World Header File ReadWriterAt : Type}.
Variable r : @Restorers World Header File ReadWriterAt.

Local Abbreviation FSt := (@FState World Header File ReadWriterAt).

Ltac not_among_calls :=
  let Hin := fresh "Hin" in
  intros Hin;
  repeat (apply elem_of_cons in Hin as [Hin | Hin]; [discriminate |]);
  by apply elem_of_nil in Hin.

(** The calls of [UnwrapExistingFile]: the target, then at most a patch
    or a restore of missing pages. *)
Lemma UnwrapExistingFile_calls (u : DefaultFileUnwrapper) reader header file (s : FSt) :
  let calls := calls_since s (UnwrapExistingFile r u reader header file s).2 in
  calls = [EvNewReadWriterAtFrom file]
  \/ exists ev,
       calls = [EvNewReadWriterAtFrom file; ev] /\
       ((exists t o, ev = EvWritePagesFromIncrement reader t o)
        \/ (exists t, ev = EvRestoreMissingPages reader t)).
Proof.
  unfold UnwrapExistingFile, bind, ret, finvoke. simpl.
  destruct (NewReadWriterAtFrom r file (fworld s)) as [[target [e |]] w1]; simpl.
  { left. apply calls_since_app. }
  destruct (isIncremented (options (base u))); simpl.
  - destruct (WritePagesFromIncrement r reader target false w1) as [e1 w2]. simpl.
    right. eexists. unfold calls_since. simpl.
    rewrite <- app_assoc, drop_app_length.
    split; [reflexivity |]. left. by do 2 eexists.
  - destruct (isPageFile (options (base u))); simpl.
    + destruct (RestoreMissingPages r reader target w1) as [e2 w3]. simpl.
      right. eexists. unfold calls_since. simpl.
    rewrite <- app_assoc, drop_app_length.
      split; [reflexivity |]. right. by eexists.
    + left. apply calls_since_app.
Qed.

(** The calls of [UnwrapNewFile]: a verbatim write, or the target and then
    at most the synthesis from the increment. *)
Lemma UnwrapNewFile_calls (u : DefaultFileUnwrapper) reader header file (s : FSt) :
  let calls := calls_since s (UnwrapNewFile r u reader header file s).2 in
  (isIncremented (options (base u)) = false /\
   calls = [EvWriteLocalFile reader header file])
  \/ (isIncremented (options (base u)) = true /\
      (calls = [EvNewReadWriterAtFrom file]
       \/ exists t,
            calls = [EvNewReadWriterAtFrom file;
                     EvCreateFileFromIncrement reader t])).
Proof.
  unfold UnwrapNewFile, bind, ret, finvoke. simpl.
  destruct (isIncremented (options (base u))); simpl.
  - right. split; [reflexivity |].
    destruct (NewReadWriterAtFrom r file (fworld s)) as [[target [e |]] w1]; simpl.
    { left. apply calls_since_app. }
    destruct (CreateFileFromIncrement r reader target w1) as [e3 w4]. simpl.
    right. eexists. unfold calls_since. simpl.
    by rewrite <- app_assoc, drop_app_length.
  - left. split; [reflexivity |].
    destruct (writeLocalFile r _ reader header file (fworld s)) as [e4 w5].
    apply calls_since_app.
Qed.

(** X14. What the dispatcher never does.  For an existing file it always
    starts by building the target, makes at most one more call, and never
    writes the file verbatim nor synthesizes it from an increment.  For a
    new file it never patches pages and never restores missing pages, and
    in non-incremental mode it builds no target. *)
Theorem dispatcher_never (u : DefaultFileUnwrapper) reader header file (s : FSt) :
  let existing := calls_since s (UnwrapExistingFile r u reader header file s).2 in
  let new := calls_since s (UnwrapNewFile r u reader header file s).2 in
  (exists rest, existing = EvNewReadWriterAtFrom file :: rest /\ length rest <= 1)
  /\ (forall rd h f, EvWriteLocalFile rd h f ∉ existing)
  /\ (forall rd t, EvCreateFileFromIncrement rd t ∉ existing)
  /\ (forall rd t o, EvWritePagesFromIncrement rd t o ∉ new)
  /\ (forall rd t, EvRestoreMissingPages rd t ∉ new)
  /\ (isIncremented (options (base u)) = false ->
      forall f, EvNewReadWriterAtFrom f ∉ new).
Proof.
  intros existing new. subst existing new.
  split; [| split; [| split; [| split; [| split]]]].
  - destruct (UnwrapExistingFile_calls u reader header file s)
      as [-> | (ev & -> & _)]; eexists; (split; [reflexivity | simpl; lia]).
  - intros rd h f.
    destruct (UnwrapExistingFile_calls u reader header file s)
      as [-> | (ev & -> & [(t & o & ->) | (t & ->)])]; not_among_calls.
  - intros rd t0.
    destruct (UnwrapExistingFile_calls u reader header file s)
      as [-> | (ev & -> & [(t & o & ->) | (t & ->)])]; not_among_calls.
  - intros rd t0 o.
    destruct (UnwrapNewFile_calls u reader header file s)
      as [(_ & ->) | (_ & [-> | (t & ->)])]; not_among_calls.
  - intros rd t0.
    destruct (UnwrapNewFile_calls u reader header file s)
      as [(_ & ->) | (_ & [-> | (t & ->)])]; not_among_calls.
  - intros Hinc f.
    destruct (UnwrapNewFile_calls u reader header file s)
      as [(_ & ->) | (Hinc' & _)]; [not_among_calls | congruence].
Qed.



End UnwrapperMore.

(** ** The further properties on concrete inputs *)

(** A sentinel stored without a name is reported under its lookup name. *)
Lemma BackupMeta_fills_in_name_witness :
  BackupName (BackupMeta Fixture.FetchStreamSentinel (Fixture.downloader [])
                "tuesday").1 = "tuesday".
Proof.
  pose proof (BackupMeta_fills_in_name Fixture.FetchStreamSentinel
                (Fixture.downloader []) "tuesday" _ None eq_refl) as H.
  simpl in H. destruct H as (_ & Hname & _). exact Hname.
Defined.

Lemma LoadBackups_backups_are_named_witness :
  exists backups,
    LoadBackups Fixture.FetchStreamSentinel Fixture.sort_Slice
      (Fixture.downloader []) ["monday"; "tuesday"] = (Slice backups, None) /\
    Forall (fun b => BackupName b <> "") backups.
Proof.
  destruct (LoadBackups_backups_are_named Fixture.FetchStreamSentinel
              Fixture.sort_Slice (Fixture.downloader []) ["monday"; "tuesday"]
              Fixture_sort_Slice_ok) as (backups & Heq & Hnamed & _).
  - repeat constructor.
  - exists backups. split; [exact Heq |]. apply Hnamed.
    repeat constructor; discriminate.
Defined.

Lemma LoadBackups_finish_times_order_independent_witness :
  exists backups backups',
    LoadBackups Fixture.FetchStreamSentinel Fixture.sort_Slice
      (Fixture.downloader []) ["monday"; "tuesday"] = (Slice backups, None) /\
    LoadBackups Fixture.FetchStreamSentinel Fixture.sort_Slice
      (Fixture.downloader []) ["tuesday"; "monday"] = (Slice backups', None) /\
    map FinishLocalTime backups = map FinishLocalTime backups'.
Proof.
  apply (LoadBackups_finish_times_order_independent Fixture.FetchStreamSentinel
           Fixture.sort_Slice (Fixture.downloader [])
           ["monday"; "tuesday"] ["tuesday"; "monday"] Fixture_sort_Slice_ok).
  - apply perm_swap.
  - repeat constructor.
Defined.

(** Two sentinels and a data part are listed: two entries come back, the
    later one first; a folder that cannot be listed gives the nil slice. *)
Lemma ListBackupNames_sentinels_latest_first_witness :
  (exists entries,
     ListBackupNames Fixture.sort_Slice Fixture.utility Fixture.lister =
       (Slice entries, None) /\
     length entries = 2 /\
     StronglySorted (fun a b => (BT_Time b <= BT_Time a)%Z) entries) /\
  ListBackupNames Fixture.sort_Slice Fixture.utility Fixture.unreachable =
    (nil_slice, Some (Errorf "connection reset")).
Proof.
  split.
  - destruct (ListBackupNames_sentinels_latest_first Fixture.sort_Slice
                Fixture.utility Fixture.lister _ _ None Fixture_sort_Slice_ok
                eq_refl) as (entries & Heq & Hperm & Hsorted & _).
    exists entries. split; [exact Heq |]. split; [| exact Hsorted].
    by rewrite Hperm.
  - exact (ListBackupNames_sentinels_latest_first Fixture.sort_Slice
             Fixture.utility Fixture.unreachable _ _ (Some _)
             Fixture_sort_Slice_ok eq_refl).
Defined.

(** One good key with [End] 200, then a malformed one: the answer is the
    zero timestamp, not 200. *)
Lemma LastKnownArchiveTS_no_partial_maximum_witness :
  (LastKnownArchiveTS Fixture.codec
     (Fixture.downloader ["oplog_100.0_200.0.br"; "junk"])).1 = zeroTS.
Proof.
  destruct (LastKnownArchiveTS_no_partial_maximum Fixture.codec
              (Fixture.downloader ["oplog_100.0_200.0.br"; "junk"])
              (map Fixture.obj ["oplog_100.0_200.0.br"; "junk"]) [] eq_refl)
    as (good & key & rest & err & _ & _ & _ & Heq).
  - constructor 2. constructor. vm_compute. discriminate.
  - by rewrite Heq.
Defined.

Lemma LastKnownArchiveTS_agrees_with_ListOplogArchives_witness :
  LastKnownArchiveTS Fixture.codec (Fixture.downloader Fixture.good_names) =
    (foldl MaxTS zeroTS (map End Fixture.known), None).
Proof.
  destruct (LastKnownArchiveTS_agrees_with_ListOplogArchives Fixture.codec
              (Fixture.downloader Fixture.good_names)) as [_ H].
  apply H. reflexivity.
Defined.

(** With the archive [[100, 200)] purged the answer does not move. *)
Lemma LastKnownArchiveTS_monotone_witness :
  exists m m',
    LastKnownArchiveTS Fixture.codec
      (Fixture.downloader ["oplog_200.0_350.0.br"; "gap_350.0_400.0.br"]) =
      (m, None) /\
    LastKnownArchiveTS Fixture.codec (Fixture.downloader Fixture.good_names) =
      (m', None) /\
    LeTS m m'.
Proof.
  destruct (LastKnownArchiveTS_monotone Fixture.codec
              (Fixture.downloader ["oplog_200.0_350.0.br"; "gap_350.0_400.0.br"])
              (Fixture.downloader Fixture.good_names)
              (map Fixture.obj ["oplog_200.0_350.0.br"; "gap_350.0_400.0.br"])
              (map Fixture.obj Fixture.good_names) [] [] eq_refl eq_refl)
    as (m & m' & H1 & H2 & Hle & _).
  - intros x Hx. simpl in *.
    repeat (apply elem_of_cons in Hx as [-> | Hx]);
      [| | by apply elem_of_nil in Hx]; rewrite !elem_of_cons; auto.
  - repeat constructor.
  - exists m, m'. by repeat split.
Defined.

(** The discard Uploader passes on the error of a stream that breaks. *)
Lemma Discard_UploadOplogArchive_reads_and_drops_witness :
  Discard_UploadOplogArchive Fixture.internals
    (NewDiscardUploader (Some "br") (Some Fixture.devnull))
    Fixture.broken_stream (Fixture.ts 1) (Fixture.ts 2) Fixture.start =
    (Some (Errorf "unexpected EOF"),
     mkUState Fixture.empty_world [EvReadFrom Fixture.broken_stream] []).
Proof.
  pose proof (Discard_UploadOplogArchive_reads_and_drops Fixture.internals
                (NewDiscardUploader (Some "br") (Some Fixture.devnull))
                Fixture.broken_stream (Fixture.ts 1) (Fixture.ts 2)
                Fixture.start) as H.
  simpl in H. exact (H _ _ _ eq_refl).
Defined.

(** A stream that breaks is not uploaded. *)
Lemma UploadOplogArchive_outcomes_witness :
  UploadOplogArchive Fixture.codec Fixture.internals Fixture.storageUploader
    Fixture.broken_stream (Fixture.ts 1) (Fixture.ts 2) Fixture.start =
    (Some (Errorf "unexpected EOF"), mkUState Fixture.empty_world [] []).
Proof.
  exact (UploadOplogArchive_outcomes Fixture.codec Fixture.internals
           Fixture.storageUploader Fixture.broken_stream (Fixture.ts 1)
           (Fixture.ts 2) Fixture.start _ None eq_refl).
Defined.

Lemma UploadBackup_success_writes_sentinel_witness :
  exists sentinel backupName,
    ucalls_since Fixture.start
      (UploadBackup Fixture.internals Fixture.storageUploader Fixture.dump
         Fixture.ok_cmd Fixture.metaProvider Fixture.start).2 =
      [EvTimeNow; EvPushStream Fixture.dump; EvFinalize; EvWait; EvTimeNow;
       EvGetSentinelUserData; EvMeta; EvUploadSentinel sentinel backupName]
    /\ BackupName sentinel = "".
Proof.
  destruct (UploadBackup_success_writes_sentinel Fixture.internals
              Fixture.storageUploader Fixture.dump Fixture.ok_cmd
              Fixture.metaProvider Fixture.start eq_refl)
    as (sentinel & backupName & Hcalls & Hname & _).
  exists sentinel, backupName. by split.
Defined.


(** The three archives listed are the three keys deleted. *)
Lemma purge_of_listed_archives_witness :
  ptrace (DeleteOplogArchives Fixture.codec Fixture.store Fixture.purger
            Fixture.known Fixture.pstart).2 =
    [EvDeleteObjects "oplog_005" Fixture.good_names].
Proof.
  rewrite (purge_of_listed_archives Fixture.codec Fixture.store
             (Fixture.downloader Fixture.good_names) Fixture.purger
             (map Fixture.obj Fixture.good_names) [] Fixture.known
             Fixture.pstart None Fixture.empty_world eq_refl eq_refl).
  - reflexivity.
  - intros o Ho. simpl in Ho.
    repeat (apply elem_of_cons in Ho as [-> | Ho]); try reflexivity.
    by apply elem_of_nil in Ho.
  - reflexivity.
Defined.

Lemma purge_of_nothing_still_calls_the_store_witness :
  ptrace (DeleteBackups Fixture.store Fixture.purger [] Fixture.pstart).2 =
    [EvDeleteObjects "basebackups_005" []].
Proof.
  destruct (purge_of_nothing_still_calls_the_store Fixture.codec Fixture.store
              Fixture.purger Fixture.pstart) as [H _].
  by rewrite (H None _ eq_refl).
Defined.

Lemma dispatcher_never_witness :
  exists rest,
    calls_since Fixture.fstart
      (UnwrapExistingFile Fixture.restorers (Fixture.unwrapper false true)
         Fixture.increment tt ("base/1", true) Fixture.fstart).2 =
      EvNewReadWriterAtFrom ("base/1", true) :: rest
    /\ length rest <= 1.
Proof.
  destruct (dispatcher_never Fixture.restorers (Fixture.unwrapper false true)
              Fixture.increment tt ("base/1", true) Fixture.fstart)
    as (H & _).
  exact H.
Defined.


